(** * LatticeVeil site maintenance scripts: a shallow embedding

    The repository holds four independent Python scripts, each patching one
    HTML document of the site:

    - [Tools/create_vr_page.py]    (Page Generator)
    - [Tools/final_polish.py]      (Content Scrubber)
    - [Tools/update_vr_preview.py] (Idempotent Injector, UI preview variant;
      the file does not compile, see its section)
    - [Tools/update_website_vr.py] (Idempotent Injector, site integration)

    Python [bytes] values are lists of [Byte.byte]; Python [str] values are
    lists of Unicode code points ([N]).  The builtins the scripts call
    ([in], [replace], [count], [re.sub], the codecs, the file calls) are
    written out as executable functions, and each script is a computation
    in a state-and-exception monad over a small file-system model.

    Part I holds the definitions, Part II the general lemmas, Part III the
    properties of the scripts, Part IV further properties of the scripts. *)

From Stdlib Require Import List NArith ZArith Lia Bool Strings.String Strings.Ascii Strings.Byte.
From stdpp Require Import base list gmap strings.

Set Default Proof Using "Type".

(** * Part I: definitions *)

(** ** Python sequence builtins, for [bytes] and [str] alike *)

Section Sequences.
Context {A : Type} `{EqDecision A}.
Implicit Types (s t p old new sep : list A).

(** [s.startswith(p)] *)
Fixpoint startswith p s : bool :=
  match p, s with
  | [], _ => true
  | x :: p', y :: s' => if decide (x = y) then startswith p' s' else false
  | _ :: _, [] => false
  end.

(** [p in s]: some suffix of [s] starts with [p]. *)
Fixpoint contains p s : bool :=
  startswith p s ||
  match s with
  | [] => false
  | _ :: s' => contains p s'
  end.

(** [s.replace(old, new)] for a non-empty [old]: scan from the left; at a
    position where [old] starts emit [new] and resume right after that
    occurrence, otherwise copy one element.  [fuel] bounds the scan. *)
Fixpoint replace_from (fuel : nat) old new s : list A :=
  match fuel with
  | O => s
  | S fuel' =>
      if startswith old s
      then new ++ replace_from fuel' old new (drop (length old) s)
      else match s with
           | [] => []
           | c :: s' => c :: replace_from fuel' old new s'
           end
  end.

(** [s.replace(old, new)].  With an empty [old] Python puts [new] in front
    of every element and at the end. *)
Definition replace old new s : list A :=
  match old with
  | [] => new ++ concat (map (fun c => c :: new) s)
  | _ :: _ => replace_from (length s) old new s
  end.

(** The scan of [replace] as a relation between the text and the result. *)
Inductive replaced old new : list A -> list A -> Prop :=
| replaced_nil : replaced old new [] []
| replaced_copy c s t :
    startswith old (c :: s) = false ->
    replaced old new s t -> replaced old new (c :: s) (c :: t)
| replaced_hit s t :
    replaced old new s t -> replaced old new (old ++ s) (new ++ t).

(** [s.count(old)] for a non-empty [old]: the occurrences the scan of
    [replace] finds (they do not overlap). *)
Fixpoint count_from (fuel : nat) old s : nat :=
  match fuel with
  | O => 0
  | S fuel' =>
      if startswith old s
      then S (count_from fuel' old (drop (length old) s))
      else match s with
           | [] => 0
           | _ :: s' => count_from fuel' old s'
           end
  end.

Definition count old s : nat :=
  match old with
  | [] => S (length s)
  | _ :: _ => count_from (length s) old s
  end.

(** [s.split(sep)] for a non-empty [sep]. *)
Fixpoint split_from (fuel : nat) sep s : list (list A) :=
  match fuel with
  | O => [s]
  | S fuel' =>
      if startswith sep s
      then [] :: split_from fuel' sep (drop (length sep) s)
      else match s with
           | [] => [[]]
           | c :: s' =>
               match split_from fuel' sep s' with
               | piece :: pieces => (c :: piece) :: pieces
               | [] => [[c]]
               end
           end
  end.

Definition split sep s : list (list A) := split_from (length s) sep s.

(** [sep.join(pieces)] *)
Fixpoint join sep (pieces : list (list A)) : list A :=
  match pieces with
  | [] => []
  | [piece] => piece
  | piece :: rest => piece ++ sep ++ join sep rest
  end.

(** Number of positions of [s] at which [p] starts; occurrences that
    overlap are all counted. *)
Fixpoint occurrences p s : nat :=
  (if startswith p s then 1 else 0) +
  match s with
  | [] => 0
  | _ :: s' => occurrences p s'
  end.

(** *** Overlap tests on two fixed strings

    They decide whether putting a fragment next to an anchor can break or
    create an occurrence of a pattern. *)

(** Some cut of [m] into two non-empty halves has its left half ending
    where an occurrence of [a] ends: the left half is a suffix of [a], or
    [a] is a suffix of the left half. *)
Definition straddles_end a m : bool :=
  existsb (fun k => let x := rev (take k m) in
                    startswith x (rev a) || startswith (rev a) x)
          (seq 1 (length m - 1)).

(** Some cut of [m] into two non-empty halves has its right half starting
    where an occurrence of [a] starts. *)
Definition straddles_start a m : bool :=
  existsb (fun k => let y := drop k m in
                    startswith y a || startswith a y)
          (seq 1 (length m - 1)).

(** A proper non-empty prefix of [p] is a suffix of [f]. *)
Definition prefix_meets_suffix p f : bool :=
  existsb (fun k => startswith (rev (take k p)) (rev f)) (seq 1 (length p - 1)).

(** A proper non-empty suffix of [p] is a prefix of [f]. *)
Definition suffix_meets_prefix p f : bool :=
  existsb (fun k => startswith (drop k p) f) (seq 1 (length p - 1)).

(** [f] lies inside [p] with something of [p] on both sides. *)
Definition strictly_inside f p : bool :=
  existsb (fun k => startswith f (drop k p) && (k + length f <? length p))
          (seq 1 (length p - 1)).

(** Inserting [f] between any two strings cannot create an occurrence of
    [p]. *)
Definition cannot_create p f : bool :=
  negb (contains p f) && negb (prefix_meets_suffix p f)
  && negb (suffix_meets_prefix p f) && negb (strictly_inside f p).

(** No proper non-empty prefix of [a] is also a suffix of [a]: two
    occurrences of [a] never overlap. *)
Definition unbordered a : bool := negb (prefix_meets_suffix a a).

End Sequences.

(** ** Guarded insertion, the pattern the injectors are written in

    [if marker not in content: content = content.replace(anchor, ...)]
    where the new text is the anchor with the fragment after it, or (in
    one place of the text of the preview script) before it. *)

Record insertion (A : Type) := Insertion {
  marker : list A;
  anchor : list A;
  fragment : list A;
  before : bool
}.
Arguments Insertion {A} _ _ _ _.
Arguments marker {A} _.
Arguments anchor {A} _.
Arguments fragment {A} _.
Arguments before {A} _.

Definition replacement {A} (i : insertion A) : list A :=
  if before i then fragment i ++ anchor i else anchor i ++ fragment i.

Definition apply_insertion {A} `{EqDecision A} (i : insertion A) (content : list A) : list A :=
  if negb (contains (marker i) content)
  then replace (anchor i) (replacement i) content
  else content.

(** A list of insertions applied in order, as the site injector does. *)
Definition apply_all {A} `{EqDecision A} (l : list (insertion A)) (content : list A) : list A :=
  foldl (fun content i => apply_insertion i content) content l.

(** Applying [i] to such a text changes nothing: the marker is there, or
    the anchor is not. *)
Definition settled {A} `{EqDecision A} (i : insertion A) (content : list A) : bool :=
  contains (marker i) content || negb (contains (anchor i) content).

(** Insertion [j] never cuts an occurrence of [m]. *)
Definition keeps {A} `{EqDecision A} (j : insertion A) (m : list A) : bool :=
  if before j then negb (straddles_start (anchor j) m)
  else negb (straddles_end (anchor j) m).

(** The fragment carries the marker, and no later insertion cuts the
    marker or creates the anchor. *)
Fixpoint compatible {A} `{EqDecision A} (l : list (insertion A)) : bool :=
  match l with
  | [] => true
  | i :: l' =>
      negb (bool_decide (anchor i = [])) && contains (marker i) (fragment i)
      && forallb (fun j => keeps j (marker i)
                           && cannot_create (anchor i) (fragment j)) l'
      && compatible l'
  end.

(** An earlier insertion neither cuts a later anchor nor creates a later
    marker, and a later insertion does not cut what an earlier one put in. *)
Fixpoint independent {A} `{EqDecision A} (l : list (insertion A)) : bool :=
  match l with
  | [] => true
  | i :: l' =>
      negb (bool_decide (anchor i = []))
      && forallb (fun j => keeps i (anchor j)
                           && cannot_create (marker j) (fragment i)
                           && keeps j (replacement i)) l'
      && independent l'
  end.

(** No fragment holds the anchor or the marker of a later insertion. *)
Fixpoint later_free {A} `{EqDecision A} (l : list (insertion A)) : bool :=
  match l with
  | [] => true
  | i :: l' =>
      forallb (fun j => negb (contains (anchor j) (fragment i))
                        && negb (contains (marker j) (fragment i))) l'
      && later_free l'
  end.

(** The insertions with their guards taken away. *)
Definition replace_all {A} `{EqDecision A} (l : list (insertion A)) (content : list A) : list A :=
  foldl (fun content i => replace (anchor i) (replacement i) content) content l.

(** What one guarded insertion does to a content without its marker:
    the content is the pieces between the occurrences of the anchor, the
    result is the same pieces with the replacement text between them,
    there is one more piece than there are occurrences, and the result is
    longer by one fragment for each occurrence. *)
Definition replaces_everywhere {A} `{EqDecision A} (i : insertion A) : Prop :=
  forall content,
    contains (marker i) content = false ->
    count (anchor i) content = occurrences (anchor i) content
    /\ content = join (anchor i) (split (anchor i) content)
    /\ apply_insertion i content = join (replacement i) (split (anchor i) content)
    /\ length (split (anchor i) content) = S (occurrences (anchor i) content)
    /\ length (apply_insertion i content)
       = length content + occurrences (anchor i) content * length (fragment i)
    /\ (occurrences (anchor i) content = 1 ->
        exists u v, content = u ++ anchor i ++ v
                    /\ apply_insertion i content = u ++ replacement i ++ v).

(** ** Bytes, text and the codecs *)

Abbreviation bytes := (list byte).
Abbreviation str := (list N).

#[global] Instance byte_eq_dec : EqDecision byte := Byte.byte_eq_dec.

Definition dq : string := String (ascii_of_nat 34) EmptyString.

(** A [b'...'] literal. *)
Definition bytes_lit (s : string) : bytes := list_byte_of_string s.

(** A ['...'] literal whose characters are all ASCII. *)
Definition str_lit (s : string) : str := map Byte.to_N (list_byte_of_string s).

Definition byte_of_N (n : N) : byte :=
  match Byte.of_N n with
  | Some b => b
  | None => x00
  end.

(** [data.decode('latin-1')]: byte [b] is the character U+00[b]. *)
Definition latin1_decode (data : bytes) : str := map Byte.to_N data.

Definition is_surrogate (c : N) : bool := (0xD800 <=? c)%N && (c <? 0xE000)%N.

(** A code point that [s.encode('utf-8')] accepts. *)
Definition encodable (c : N) : bool := (c <? 0x110000)%N && negb (is_surrogate c).

(** The byte-order mark, as a character and as UTF-8. *)
Definition BOM : N := 0xFEFF%N.
Definition utf8_bom : bytes := [xef; xbb; xbf].

(** The UTF-8 form of one code point; [None] is [UnicodeEncodeError]
    (a lone surrogate). *)
Definition utf8_encode_char (c : N) : option bytes :=
  if (c <? 0x80)%N then Some [byte_of_N c]
  else if (c <? 0x800)%N then
    Some [byte_of_N (0xC0 + c / 64); byte_of_N (0x80 + c mod 64)]
  else if (c <? 0x10000)%N then
    if is_surrogate c then None
    else Some [byte_of_N (0xE0 + c / 4096);
               byte_of_N (0x80 + (c / 64) mod 64);
               byte_of_N (0x80 + c mod 64)]
  else if (c <? 0x110000)%N then
    Some [byte_of_N (0xF0 + c / 262144);
          byte_of_N (0x80 + (c / 4096) mod 64);
          byte_of_N (0x80 + (c / 64) mod 64);
          byte_of_N (0x80 + c mod 64)]
  else None.

(** [s.encode('utf-8')]: no byte-order mark is put in front. *)
Fixpoint utf8_encode (s : str) : option bytes :=
  match s with
  | [] => Some []
  | c :: s' =>
      match utf8_encode_char c, utf8_encode s' with
      | Some e, Some es => Some (e ++ es)
      | _, _ => None
      end
  end.

Definition is_continuation (b : byte) : bool :=
  (0x80 <=? Byte.to_N b)%N && (Byte.to_N b <? 0xC0)%N.

Definition low6 (b : byte) : N := (Byte.to_N b - 0x80)%N.

(** [data.decode('utf-8')], strict: [None] is [UnicodeDecodeError]
    (stray or missing continuation bytes, over-long forms, surrogates,
    values above U+10FFFF). *)
Fixpoint utf8_decode (data : bytes) : option str :=
  match data with
  | [] => Some []
  | b0 :: r0 =>
      let n0 := Byte.to_N b0 in
      if (n0 <? 0x80)%N then cons n0 <$> utf8_decode r0
      else if (n0 <? 0xC2)%N then None
      else if (n0 <? 0xE0)%N then
        match r0 with
        | b1 :: r1 =>
            if is_continuation b1
            then cons ((n0 - 0xC0) * 64 + low6 b1)%N <$> utf8_decode r1
            else None
        | _ => None
        end
      else if (n0 <? 0xF0)%N then
        match r0 with
        | b1 :: b2 :: r2 =>
            let c := ((n0 - 0xE0) * 4096 + low6 b1 * 64 + low6 b2)%N in
            if is_continuation b1 && is_continuation b2
               && (0x800 <=? c)%N && negb (is_surrogate c)
            then cons c <$> utf8_decode r2
            else None
        | _ => None
        end
      else if (n0 <? 0xF5)%N then
        match r0 with
        | b1 :: b2 :: b3 :: r3 =>
            let c := ((n0 - 0xF0) * 262144 + low6 b1 * 4096
                      + low6 b2 * 64 + low6 b3)%N in
            if is_continuation b1 && is_continuation b2 && is_continuation b3
               && (0x10000 <=? c)%N && (c <? 0x110000)%N
            then cons c <$> utf8_decode r3
            else None
        | _ => None
        end
      else None
  end.

Definition LF : N := 10%N.
Definition CR : N := 13%N.

(** Text-mode reading ([newline=None]): ["\r\n"] and a lone ["\r"] both
    become ["\n"]. *)
Fixpoint universal_newlines (s : str) : str :=
  match s with
  | [] => []
  | c :: r =>
      if (c =? CR)%N then
        LF :: match r with
              | d :: r' => if (d =? LF)%N then universal_newlines r'
                           else universal_newlines r
              | [] => []
              end
      else c :: universal_newlines r
  end.

(** Text-mode writing: ["\n"] becomes [os.linesep].  The paths compiled
    into the scripts are Windows paths, so [os.linesep] is ["\r\n"]. *)
Definition os_linesep : str := [CR; LF].

Definition translate_newlines (s : str) : str :=
  flat_map (fun c => if (c =? LF)%N then os_linesep else [c]) s.

(** ** Regular expressions: the part of [re] the scrubber uses

    A character class is a predicate on code points.  Repetition is only
    ever applied to a class.  The matcher backtracks in the order of
    [re]: a greedy repetition tries the longest run first, a lazy one the
    shortest, and the first way to match the whole pattern wins. *)

Inductive regex :=
| Eps
| Chr (ok : N -> bool)
| Cat (r1 r2 : regex)
| Rep (greedy : bool) (lo : nat) (ok : N -> bool).

(** [k] is what remains to be matched after the repetition; the result is
    the text left over after the whole match. *)
Fixpoint rep_greedy (ok : N -> bool) (k : str -> option str) (lo : nat) (s : str)
  : option str :=
  let stop := match lo with O => k s | S _ => None end in
  match s with
  | c :: s' =>
      if ok c then
        match rep_greedy ok k (pred lo) s' with
        | Some rest => Some rest
        | None => stop
        end
      else stop
  | [] => stop
  end.

Fixpoint rep_lazy (ok : N -> bool) (k : str -> option str) (lo : nat) (s : str)
  : option str :=
  let more := match s with
              | c :: s' => if ok c then rep_lazy ok k (pred lo) s' else None
              | [] => None
              end in
  match lo with
  | O => match k s with
         | Some rest => Some rest
         | None => more
         end
  | S _ => more
  end.

Fixpoint run (r : regex) (k : str -> option str) (s : str) : option str :=
  match r with
  | Eps => k s
  | Chr ok =>
      match s with
      | c :: s' => if ok c then k s' else None
      | [] => None
      end
  | Cat r1 r2 => run r1 (run r2 k) s
  | Rep true lo ok => rep_greedy ok k lo s
  | Rep false lo ok => rep_lazy ok k lo s
  end.

(** Length of the match of [r] that starts at the beginning of [s]. *)
Definition re_match (r : regex) (s : str) : option nat :=
  (fun rest => length s - length rest) <$> run r Some s.

(** [re.sub(r, repl, s)]: replace the leftmost matches, each search
    resuming where the previous match ended; after an empty match one
    character is copied.  [repl] holds no backslash in this program, so it
    is inserted as it is. *)
Fixpoint sub_from (fuel : nat) (r : regex) (repl s : str) : str :=
  match fuel with
  | O => s
  | S fuel' =>
      match re_match r s with
      | Some (S n) => repl ++ sub_from fuel' r repl (drop (S n) s)
      | Some O =>
          repl ++ match s with
                  | [] => []
                  | c :: s' => c :: sub_from fuel' r repl s'
                  end
      | None =>
          match s with
          | [] => []
          | c :: s' => c :: sub_from fuel' r repl s'
          end
      end
  end.

Definition re_sub (r : regex) (repl s : str) : str :=
  sub_from (S (length s)) r repl s.


(** [s] begins with one character of each class, in order. *)
Fixpoint fits (classes : list (N -> bool)) (s : str) : bool :=
  match classes, s with
  | [], _ => true
  | ok :: classes', c :: s' => ok c && fits classes' s'
  | _ :: _, [] => false
  end.

(** [s] is one character of each class, in order, and nothing more. *)
Definition spells (classes : list (N -> bool)) (s : str) : bool :=
  (length s =? length classes)%nat && fits classes s.




(** Length of the longest prefix of [s] inside a class. *)
Fixpoint run_length (ok : N -> bool) (s : str) : nat :=
  match s with
  | c :: s' => if ok c then S (run_length ok s') else 0
  | [] => 0
  end.

(** One character of each class, in order. *)
Definition chars (classes : list (N -> bool)) : regex :=
  foldr (fun ok r => Cat (Chr ok) r) Eps classes.

(** Literal text, matched exactly. *)
Definition lit (s : str) : regex := chars (map N.eqb s).

(** Simple lower-casing, as far as it can reach an ASCII letter: the
    capitals, U+0130 (capital I with dot) and U+212A (Kelvin sign). *)
Definition lower (c : N) : N :=
  if (65 <=? c)%N && (c <=? 90)%N then (c + 32)%N
  else if (c =? 0x130)%N then 105%N
  else if (c =? 0x212A)%N then 107%N
  else c.

(** One ASCII pattern character [p] under [re.IGNORECASE]: the subject
    character matches when both lower-case to the same character; [re]
    also lets [i] match U+0131 (dotless i) and [s] match U+017F (long s). *)
Definition chr_i (p c : N) : bool :=
  (lower c =? lower p)%N
  || ((lower p =? 105)%N && (c =? 0x131)%N)
  || ((lower p =? 115)%N && (c =? 0x17F)%N).

(** [.] without [re.DOTALL]: anything but a newline. *)
Definition dot (c : N) : bool := negb (c =? LF)%N.

(** A pattern character of the header patterns: a literal under
    [re.IGNORECASE], or [.]. *)
Inductive pat_char :=
| PLit (p : N)
| PDot.

Definition pat_ok (x : pat_char) : N -> bool :=
  match x with
  | PLit p => chr_i p
  | PDot => dot
  end.

(** The pattern characters of a literal ASCII text. *)
Definition text_i (s : string) : list pat_char := map PLit (str_lit s).

(** [\s] on [str]: the characters [str.isspace] accepts. *)
Definition is_space (c : N) : bool :=
  ((9 <=? c) && (c <=? 13) || (28 <=? c) && (c <=? 32)
   || (c =? 0x85) || (c =? 0xA0) || (c =? 0x1680)
   || (0x2000 <=? c) && (c <=? 0x200A)
   || (c =? 0x2028) || (c =? 0x2029) || (c =? 0x202F)
   || (c =? 0x205F) || (c =? 0x3000))%N.

(** ** Files and processes *)

Inductive node :=
| Dir
| File (data : bytes).

(** A path is the list of its components; [ntpath] splits the compiled-in
    paths at the backslashes. *)
Definition path_str (p : list string) : string := String.concat "\" p.

(** [os.path.dirname] *)
Definition dirname (p : list string) : list string := removelast p.

Inductive exn :=
| FileNotFoundError
| FileExistsError
| NotADirectoryError
| IsADirectoryError
| UnicodeDecodeError
| UnicodeEncodeError
| SyntaxError
| SystemExit (code : N).

Record world := World {
  files : gmap (list string) node;
  stdout : list string
}.

Inductive result (X : Type) :=
| Ok (x : X)
| Raise (e : exn).
Arguments Ok {X} _.
Arguments Raise {X} _.

(** A command: it returns or raises, and leaves a world either way. *)
Definition M (X : Type) : Type := world -> result X * world.

#[global] Instance M_ret : MRet M := fun X x w => (Ok x, w).
#[global] Instance M_bind : MBind M := fun X Y f m w =>
  match m w with
  | (Ok x, w') => f x w'
  | (Raise e, w') => (Raise e, w')
  end.

Definition raise {X} (e : exn) : M X := fun w => (Raise e, w).

Definition get_files : M (gmap (list string) node) := fun w => (Ok (files w), w).

Definition set_node (p : list string) (n : node) : M unit :=
  fun w => (Ok tt, World (<[p := n]> (files w)) (stdout w)).

(** [print(line)] *)
Definition print (line : string) : M unit :=
  fun w => (Ok tt, World (files w) (stdout w ++ [line])).

(** The empty path stands for the top of the name space, which is always
    there. *)
Definition path_exists (fs : gmap (list string) node) (p : list string) : bool :=
  match p with
  | [] => true
  | _ => match fs !! p with
         | Some _ => true
         | None => false
         end
  end.

Definition isdir (fs : gmap (list string) node) (p : list string) : bool :=
  match p with
  | [] => true
  | _ => match fs !! p with
         | Some Dir => true
         | _ => false
         end
  end.

(** [os.mkdir(p)] *)
Definition mkdir (p : list string) : M unit :=
  fs ← get_files;
  if path_exists fs p then raise FileExistsError
  else if isdir fs (dirname p) then set_node p Dir
  else if path_exists fs (dirname p) then raise NotADirectoryError
  else raise FileNotFoundError.

(** [try: m except FileExistsError: pass] *)
Definition swallow_file_exists (m : M unit) : M unit :=
  fun w =>
    match m w with
    | (Raise FileExistsError, w') => (Ok tt, w')
    | other => other
    end.

(** [try: mkdir(p) except OSError: if not path.isdir(p): raise] *)
Definition mkdir_exist_ok (p : list string) : M unit :=
  fun w =>
    match mkdir p w with
    | (Raise e, w') =>
        if isdir (files w') p then (Ok tt, w') else (Raise e, w')
    | other => other
    end.

(** [os.makedirs(p, exist_ok=True)], on the components of [p] last first:
    make the parent when it is missing (a [FileExistsError] from there is
    swallowed), then [mkdir], whose failure is swallowed when [p] is a
    directory by then. *)
Fixpoint makedirs_rev (rp : list string) : M unit :=
  match rp with
  | [] => mret tt
  | _ :: rhead =>
      fs ← get_files;
      (match rhead with
       | [] => mret tt
       | _ :: _ =>
           if path_exists fs (rev rhead) then mret tt
           else swallow_file_exists (makedirs_rev rhead)
       end);;
      mkdir_exist_ok (rev rp)
  end.

Definition makedirs (p : list string) : M unit := makedirs_rev (rev p).

(** [open(p, 'rb').read()] *)
Definition read_bytes (p : list string) : M bytes :=
  fs ← get_files;
  match fs !! p with
  | Some (File data) => mret data
  | Some Dir => raise IsADirectoryError
  | None => raise FileNotFoundError
  end.

(** [open(p, 'wb')] or [open(p, 'w')]: the file is created or emptied. *)
Definition open_truncate (p : list string) : M unit :=
  fs ← get_files;
  match fs !! p with
  | Some Dir => raise IsADirectoryError
  | Some (File _) => set_node p (File [])
  | None =>
      if isdir fs (dirname p) then set_node p (File [])
      else raise FileNotFoundError
  end.

(** [with open(p, 'wb') as f: f.write(data)] *)
Definition write_bytes (p : list string) (data : bytes) : M unit :=
  open_truncate p;; set_node p (File data).

(** [with open(p, 'r', encoding='utf-8') as f: f.read()] *)
Definition read_text (p : list string) : M str :=
  data ← read_bytes p;
  match utf8_decode data with
  | Some s => mret (universal_newlines s)
  | None => raise UnicodeDecodeError
  end.

(** [with open(p, 'w', encoding='utf-8') as f: f.write(s)]: the file is
    emptied when it is opened, before [s] is encoded. *)
Definition write_text (p : list string) (s : str) : M unit :=
  open_truncate p;;
  match utf8_encode (translate_newlines s) with
  | Some data => set_node p (File data)
  | None => raise UnicodeEncodeError
  end.

(** What [makedirs] may do to the files: add directories at prefixes of
    its argument, nothing else. *)
Definition grown_at (p : list string) (fs fs' : gmap (list string) node) : Prop :=
  forall q, fs' !! q = fs !! q \/ (q `prefix_of` p /\ fs !! q = None /\ fs' !! q = Some Dir).

(** The exit status the interpreter ends with. *)
Definition exit_status {X} (r : result X) : N :=
  match r with
  | Ok _ => 0
  | Raise (SystemExit code) => code
  | Raise _ => 1
  end.

(** ** [Tools/create_vr_page.py] *)

Module CreateVrPage.

Definition path : list string :=
  ["C:"; "Users"; "Redacted"; "Documents"; "latticeveil.github.io"; "vr"; "index.html"]%string.

Definition html : str :=
  str_lit ("<!DOCTYPE html>
<html>
  <head>
    <meta charset=" ++ dq ++ "utf-8" ++ dq ++ ">
    <title>LatticeVeil VR | WebXR Room</title>
    <script src=" ++ dq ++ "https://aframe.io/releases/1.4.2/aframe.min.js" ++ dq ++ "></script>
    <script src=" ++ dq ++ "https://unpkg.com/aframe-environment-component@1.3.2/dist/aframe-environment-component.min.js" ++ dq ++ "></script>
  </head>
  <body>
    <a-scene>
      <a-entity environment=" ++ dq ++ "preset: pixel; seed: 42; dressingAmount: 50; grid: dots; groundColor: #222; skyColor: #111; horizonColor: #333;" ++ dq ++ "></a-entity>
      <a-assets><img id=" ++ dq ++ "logo" ++ dq ++ " src=" ++ dq ++ "../assets/img/logo.png" ++ dq ++ "></a-assets>
      <a-entity id=" ++ dq ++ "rig" ++ dq ++ " position=" ++ dq ++ "0 0 4" ++ dq ++ ">
        <a-camera look-controls wasd-controls><a-cursor color=" ++ dq ++ "#4e9a06" ++ dq ++ " fuse=" ++ dq ++ "false" ++ dq ++ "></a-cursor></a-camera>
        <a-entity oculus-touch-controls=" ++ dq ++ "hand: left" ++ dq ++ "></a-entity>
        <a-entity oculus-touch-controls=" ++ dq ++ "hand: right" ++ dq ++ "></a-entity>
      </a-entity>
      <a-image src=" ++ dq ++ "#logo" ++ dq ++ " position=" ++ dq ++ "0 2.5 -2" ++ dq ++ " width=" ++ dq ++ "2" ++ dq ++ " height=" ++ dq ++ "0.5" ++ dq ++ " transparent=" ++ dq ++ "true" ++ dq ++ "></a-image>
      <a-entity position=" ++ dq ++ "0 1.5 -2" ++ dq ++ ">
        <a-plane color=" ++ dq ++ "#2d2d2d" ++ dq ++ " width=" ++ dq ++ "3" ++ dq ++ " height=" ++ dq ++ "2" ++ dq ++ " position=" ++ dq ++ "0 0 -0.05" ++ dq ++ "></a-plane>
        <a-text value=" ++ dq ++ "LATTICEVEIL VR PORTAL" ++ dq ++ " align=" ++ dq ++ "center" ++ dq ++ " position=" ++ dq ++ "0 0.7 0" ++ dq ++ " color=" ++ dq ++ "#e9b96e" ++ dq ++ " width=" ++ dq ++ "4" ++ dq ++ "></a-text>
        <a-entity class=" ++ dq ++ "clickable" ++ dq ++ " position=" ++ dq ++ "-0.8 -0.2 0" ++ dq ++ " geometry=" ++ dq ++ "primitive: plane; width: 0.7; height: 0.4" ++ dq ++ " material=" ++ dq ++ "color: #4e9a06" ++ dq ++ " onclick=" ++ dq ++ "window.location.href='../'" ++ dq ++ ">
          <a-text value=" ++ dq ++ "HOME" ++ dq ++ " align=" ++ dq ++ "center" ++ dq ++ " position=" ++ dq ++ "0 0 0.01" ++ dq ++ " color=" ++ dq ++ "#fff" ++ dq ++ " width=" ++ dq ++ "2" ++ dq ++ "></a-text>
        </a-entity>
        <a-entity class=" ++ dq ++ "clickable" ++ dq ++ " position=" ++ dq ++ "0 -0.2 0" ++ dq ++ " geometry=" ++ dq ++ "primitive: plane; width: 0.7; height: 0.4" ++ dq ++ " material=" ++ dq ++ "color: #4e9a06" ++ dq ++ " onclick=" ++ dq ++ "window.location.href='../#coding'" ++ dq ++ ">
          <a-text value=" ++ dq ++ "DEVLOG" ++ dq ++ " align=" ++ dq ++ "center" ++ dq ++ " position=" ++ dq ++ "0 0 0.01" ++ dq ++ " color=" ++ dq ++ "#fff" ++ dq ++ " width=" ++ dq ++ "2" ++ dq ++ "></a-text>
        </a-entity>
        <a-entity class=" ++ dq ++ "clickable" ++ dq ++ " position=" ++ dq ++ "0.8 -0.2 0" ++ dq ++ " geometry=" ++ dq ++ "primitive: plane; width: 0.7; height: 0.4" ++ dq ++ " material=" ++ dq ++ "color: #4e9a06" ++ dq ++ " onclick=" ++ dq ++ "window.location.href='../#assets'" ++ dq ++ ">
          <a-text value=" ++ dq ++ "BLOCKS" ++ dq ++ " align=" ++ dq ++ "center" ++ dq ++ " position=" ++ dq ++ "0 0 0.01" ++ dq ++ " color=" ++ dq ++ "#fff" ++ dq ++ " width=" ++ dq ++ "2" ++ dq ++ "></a-text>
        </a-entity>
      </a-entity>
      <a-box position=" ++ dq ++ "-2 0.5 -3" ++ dq ++ " color=" ++ dq ++ "#4e9a06" ++ dq ++ " animation=" ++ dq ++ "property: rotation; to: 0 360 0; loop: true; dur: 10000" ++ dq ++ "></a-box>
      <a-box position=" ++ dq ++ "2 0.5 -3" ++ dq ++ " color=" ++ dq ++ "#e9b96e" ++ dq ++ " animation=" ++ dq ++ "property: rotation; to: 0 -360 0; loop: true; dur: 8000" ++ dq ++ "></a-box>
    </a-scene>
    <script>
      document.querySelectorAll('.clickable').forEach(el => {
        el.addEventListener('mouseenter', () => el.setAttribute('material', 'color', '#3a7304'));
        el.addEventListener('mouseleave', () => el.setAttribute('material', 'color', '#4e9a06'));
      });
    </script>
  </body>
</html>
")%string.

(** The bytes [f.write(html)] puts in the file; the template is ASCII, so
    the encoder accepts it. *)
Definition html_file : bytes := default [] (utf8_encode (translate_newlines html)).

Definition main : M unit :=
  makedirs (dirname path);;
  write_text path html;;
  print ("Created " ++ path_str path)%string.

End CreateVrPage.

(** ** [Tools/final_polish.py] *)

Module FinalPolish.

Definition path : list string :=
  ["C:"; "Users"; "Redacted"; "Documents"; "latticeveil.github.io"; "index.html"]%string.

(** [r'\n{3,}'] *)
Definition blank_lines : regex := Rep true 3 (N.eqb LF).

(** [open.*?title] under [re.IGNORECASE]: the opening tag, as few
    characters as possible, then the title with its closing tag. *)
Definition header (open title : list pat_char) : regex :=
  Cat (chars (map pat_ok open)) (Cat (Rep false 0 dot) (chars (map pat_ok title))).

(** The rows of [header_replacements]: the two literal parts of the
    pattern and the replacement text, which is the characters the source
    file holds. *)
Definition header_rows : list (list pat_char * list pat_char * str) :=
  [
    (text_i "<h3>", text_i "Infinite Terrain</h3>",
     str_lit "<h3>" ++ [0x440; 0x45F; 0x40F; 0x201D; 0x43F; 0x451; 0x40F] ++ str_lit " Infinite Terrain</h3>");
    (text_i "<h3>", text_i "Greedy Meshing</h3>",
     str_lit "<h3>" ++ [0x440; 0x45F; 0x40C; 0xB1] ++ str_lit " Greedy Meshing</h3>");
    (text_i "<h3>", text_i "EOS Multiplayer</h3>",
     str_lit "<h3>" ++ [0x440; 0x45F; 0x404; 0x452] ++ str_lit " EOS Multiplayer</h3>");
    (text_i "<h3>", text_i "Powered by GitHub Pages</h3>",
     str_lit "<h3>" ++ [0x440; 0x45F; 0x452; 0x2122] ++ str_lit " Powered by GitHub Pages</h3>");
    (text_i "<h2>", text_i "The Continuist Papers</h2>",
     str_lit "<h2>" ++ [0x440; 0x45F; 0x201C; 0x45A] ++ str_lit " The Continuist Papers</h2>");
    (text_i "<h3>", text_i "Quick Summary</h3>",
     str_lit "<h3>" ++ [0x440; 0x45F; 0x201D; 0x40C] ++ str_lit " Quick Summary</h3>");
    (text_i "<h3>", text_i "Connect with Redacted</h3>",
     str_lit "<h3>" ++ [0x440; 0x45F; 0x201D; 0x2014] ++ str_lit " Connect with Redacted</h3>");
    (text_i "<h3>",
     text_i "Engine: Three" ++ [PDot] ++ text_i "js Model Inspector</h3>",
     str_lit "<h3>" ++ [0x440; 0x45F; 0x2022; 0x407; 0x43F; 0x451; 0x40F] ++ str_lit " Engine: Three.js Model Inspector</h3>")
  ]%N.

Definition header_replacements : list (regex * str) :=
  map (fun row => (header row.1.1 row.1.2, row.2)) header_rows.

(** [m] is an opening tag, characters other than newline, and a title
    with its closing tag, as the pattern of a row spells them. *)
Definition header_here (open title : list pat_char) (m : str) : Prop :=
  exists o junk ti,
    m = o ++ junk ++ ti
    /\ spells (map pat_ok open) o = true
    /\ forallb dot junk = true
    /\ spells (map pat_ok title) ti = true.

(** A header that a row spells holds no newline and does not end with a
    carriage return. *)
Definition row_on_one_line (row : list pat_char * list pat_char * str) : bool :=
  forallb (fun x => negb (pat_ok x LF)) row.1.1
  && forallb (fun x => negb (pat_ok x LF)) row.1.2
  && match last row.1.2 with
     | Some x => negb (pat_ok x CR)
     | None => false
     end.


Definition scrub_map : list (str * str) :=
  [
    ([0x413; 0x45E; 0x432; 0x201A; 0xAC; 0x432; 0x402; 0x45C],
     [0x432; 0x402; 0x201D]);
    ([0x413; 0x45E; 0x432; 0x201A; 0xAC; 0x432; 0x402; 0x45A],
     [0x432; 0x402; 0x201C]);
    ([0x413; 0x45E; 0x432; 0x201A; 0xAC; 0x415; 0x201C],
     [0x432; 0x402; 0x45A]);
    ([0x413; 0x45E; 0x432; 0x201A; 0xAC; 0x412; 0x45C],
     [0x432; 0x402; 0x45C]);
    ([0x413; 0x45E; 0x432; 0x201A; 0xAC; 0x432; 0x201E; 0x45E],
     [0x432; 0x402; 0x2122]);
    ([0x413; 0x453; 0x412; 0x45E; 0x413; 0x45E; 0x82; 0xAC; 0x9C],
     [0x432; 0x402; 0x45A]);
    ([0x413; 0x453; 0x412; 0x45E; 0x413; 0x45E; 0x82; 0xAC; 0x9D],
     [0x432; 0x402; 0x45C]);
    ([0x413; 0x453; 0x412; 0x45E; 0x413; 0x45E; 0x82; 0xAC; 0x99],
     [0x432; 0x402; 0x2122]);
    ([0x413; 0x453; 0x412; 0x45E; 0x413; 0x45E; 0x82; 0xAC; 0x94],
     [0x432; 0x402; 0x201D]);
    ([0x413; 0x453; 0x412; 0x45E; 0x413; 0x45E; 0x82; 0xAC; 0x93],
     [0x432; 0x402; 0x201C]);
    ([0x413; 0x45E; 0x412; 0x402; 0x412; 0x201D],
     [0x432; 0x402; 0x201D]);
    ([0x413; 0x45E; 0x412; 0x402; 0x412; 0x201C],
     [0x432; 0x402; 0x201C]);
    ([0x413; 0x45E; 0x412; 0x402; 0x412; 0x2122],
     [0x432; 0x402; 0x2122]);
    ([0x413; 0x45E; 0x412; 0x402; 0x412; 0x45A],
     [0x432; 0x402; 0x45A]);
    ([0x413; 0x45E; 0x412; 0x402; 0x412; 0x45C],
     [0x432; 0x402; 0x45C]);
    ([0x413; 0x453; 0x412; 0xB0; 0x413; 0x2026; 0x412; 0x451; 0x413; 0x45E; 0x80; 0x9C; 0x8C],
     [0x440; 0x45F; 0x201C; 0x45A]);
    ([0x413; 0x453; 0x412; 0xB0; 0x413; 0x2026; 0x412; 0x451; 0x413; 0x45E; 0x80; 0x9C; 0x96],
     [0x440; 0x45F; 0x201C; 0x2013]);
    ([0x413; 0x453; 0x412; 0xB0; 0x413; 0x2026; 0x412; 0x451; 0x413; 0x45E; 0x80; 0x94],
     [0x440; 0x45F; 0x201D; 0x40C]);
    ([0x413; 0xB0; 0x415; 0x451; 0x432; 0x402; 0x45A; 0x415; 0x201C],
     [0x440; 0x45F; 0x201C; 0x45A]);
    ([0x413; 0xB0; 0x415; 0x451; 0x432; 0x402; 0x45A; 0x432; 0x402; 0x201C],
     [0x440; 0x45F; 0x201C; 0x2013]);
    ([0x413; 0xB0; 0x415; 0x451; 0x432; 0x402; 0x201D; 0x412; 0x454],
     [0x440; 0x45F; 0x2014; 0x454; 0x43F; 0x451; 0x40F]);
    ([0x413; 0xB0; 0x415; 0x451; 0x432; 0x402; 0x201C; 0x412; 0x458],
     [0x440; 0x45F; 0x2013; 0x458; 0x43F; 0x451; 0x40F]);
    ([0x413; 0xB0; 0x415; 0x451; 0x415; 0x40E; 0x432; 0x201A; 0xAC],
     [0x440; 0x45F; 0x459; 0x402]);
    ([0x413; 0xB0; 0x415; 0x451; 0x412; 0x404; 0x412; 0x401],
     [0x440; 0x45F; 0x404; 0x401]);
    ([0x413; 0xB0; 0x415; 0x451; 0x432; 0x402; 0x45A; 0x415; 0x40E],
     [0x440; 0x45F; 0x201C; 0x459]);
    ([0x413; 0x45E; 0x415; 0x40E; 0x432; 0x402; 0x2122],
     [0x432; 0x459; 0x2019; 0x43F; 0x451; 0x40F]);
    ([0x413; 0xB0; 0x415; 0x451; 0x412; 0xA7; 0x412; 0xB1],
     [0x440; 0x45F; 0xA7; 0xB1]);
    ([0x413; 0xB0; 0x415; 0x451; 0x432; 0x402; 0x45C; 0x432; 0x402; 0x45B],
     [0x440; 0x45F; 0x201D; 0x201E]);
    ([0x413; 0xB0; 0x415; 0x451; 0x432; 0x402; 0x45A; 0x412; 0xA6],
     [0x440; 0x45F; 0x201C; 0xA6]);
    ([0x413; 0xB0; 0x415; 0x451; 0x415; 0x2019; 0x412; 0x452],
     [0x440; 0x45F; 0x40A; 0x452]);
    ([0x413; 0xB0; 0x415; 0x451; 0x412; 0x490; 0x412; 0x405],
     [0x440; 0x45F; 0x490; 0x405]);
    ([0x413; 0xB0; 0x415; 0x451; 0x432; 0x402; 0x45A; 0x412; 0xB1],
     [0x440; 0x45F; 0x201C; 0xB1]);
    ([0x413; 0x45E; 0x415; 0x40E; 0x432; 0x402; 0x201C],
     [0x432; 0x459; 0x2013; 0x43F; 0x451; 0x40F]);
    ([0x413; 0x45E; 0x432; 0x201E; 0x45E; 0x412; 0xBB],
     [0x432; 0x2122; 0xBB; 0x43F; 0x451; 0x40F]);
    ([0x413; 0xB0; 0x415; 0x451; 0x432; 0x402; 0x45C],
     [0x440; 0x45F; 0x2022; 0x407; 0x43F; 0x451; 0x40F]);
    ([0x413; 0xB0; 0x415; 0x451; 0x432; 0x402; 0x45C; 0x412; 0x490],
     [0x440; 0x45F; 0x201D; 0x490]);
    ([0x413; 0xB0; 0x415; 0x451] ++ str_lit "." ++ [0x432; 0x402; 0x45C; 0x432; 0x402; 0x201D],
     [0x440; 0x45F; 0x201D; 0x2014])
  ]%N.

(** [r'...[^\s<]*'] after six literal characters *)
Definition junk_run : regex :=
  Cat (lit [0x413; 0x453; 0x416; 0x2019; 0x413; 0x201A]%N)
      (Rep true 0 (fun c => negb (is_space c || (c =? 60)%N))).

(** [r'..[A-Za-z0-9\x80-\xFF]{2,}'] after two literal characters *)
Definition junk_word : regex :=
  Cat (lit [0x413; 0x453]%N)
      (Rep true 2 (fun c => (65 <=? c) && (c <=? 90) || (97 <=? c) && (c <=? 122)
                            || (48 <=? c) && (c <=? 57)
                            || (0x80 <=? c) && (c <=? 0xFF))%N).

(** Step 1 of the script: line endings and blank lines. *)
Definition normalize_lines (content : str) : str :=
  let content := replace [CR; LF] [LF] content in
  re_sub blank_lines [LF; LF] content.

(** Step 2: the header replacements, in table order. *)
Definition replace_headers (content : str) : str :=
  foldl (fun content pr => re_sub pr.1 pr.2 content) content header_replacements.

(** Step 3: the literal pairs, then the two catch-all deletions. *)
Definition scrub (content : str) : str :=
  let content := foldl (fun content bg => replace bg.1 bg.2 content) content scrub_map in
  let content := re_sub junk_run [] content in
  re_sub junk_word [] content.

(** Step 4: the three broken hyphenated phrases. *)
Definition fix_hyphens (content : str) : str :=
  let content := replace (str_lit "Stone" ++ [0x413; 0x45E; 0x80; 0x91] ++ str_lit "Braced")%N
                         (str_lit "Stone-Braced") content in
  let content := replace (str_lit "Continuist" ++ [0x413; 0x45E; 0x80; 0x91] ++ str_lit "era")%N
                         (str_lit "Continuist-era") content in
  let content := replace (str_lit "in" ++ [0x413; 0x45E; 0x80; 0x91] ++ str_lit "game")%N
                         (str_lit "in-game") content in
  content.

(** Step 5: the duplicate-function test, whose branch is [pass]. *)
Definition ensure_js_clean (content : str) : str :=
  if (1 <? count (str_lit "function openFaction") content)%nat
  then let parts := split (str_lit "function openFaction") content in content
  else content.

(** The text the script writes back, from the bytes it read. *)
Definition polish (data : bytes) : str :=
  let content := latin1_decode data in
  let content := normalize_lines content in
  let content := replace_headers content in
  let content := scrub content in
  let content := fix_hyphens content in
  ensure_js_clean content.

Definition final_polish : M unit :=
  data ← read_bytes path;
  let content := polish data in
  open_truncate path;;
  match utf8_encode content with
  | Some out => set_node path (File out)
  | None => raise UnicodeEncodeError
  end.

Definition main : M unit :=
  final_polish;;
  print "Website fully restored and polished.".

End FinalPolish.

(** ** [Tools/update_vr_preview.py]

    The file is not a Python program.  Line 14 opens a string literal with
    one double quote and ends before the literal is closed, and so does
    line 27; a literal opened by one quote character may not run over the
    end of its line.  Python compiles a file as a whole before it runs its
    first statement, so every run of the script ends in [SyntaxError]: the
    existence check of lines 5 to 7, the read, the two guarded insertions,
    the write and the two [print] calls are never reached, whatever the
    file system holds. *)

Module UpdateVrPreview.

(** Line 3: the target the script names. *)
Definition path : list string :=
  ["C:"; "Users"; "Redacted"; "Documents"; "latticeveil.github.io"; "vr"; "index.html"]%string.

(** A run of the script. *)
Definition main : M unit := raise SyntaxError.

End UpdateVrPreview.

(** ** [Tools/update_website_vr.py] *)

Module UpdateWebsiteVr.

Definition path : list string :=
  ["C:"; "Users"; "Redacted"; "Documents"; "latticeveil.github.io"; "index.html"]%string.

Definition css_marker : bytes :=
  bytes_lit "box-shadow: 4px 4px 0px #000; }".

Definition vr_style : bytes :=
  bytes_lit ("
        #vrIcon {
            display: none;
            position: fixed;
            bottom: 20px;
            right: 20px;
            z-index: 1000;
            background: #4e9a06;
            color: white;
            border: 4px solid white;
            padding: 15px;
            border-radius: 50%;
            cursor: pointer;
            box-shadow: 0 0 15px rgba(78, 154, 6, 0.5);
            transition: transform 0.2s;
        }
        #vrIcon:hover { transform: scale(1.1); }
        #vrIcon i { font-size: 24px; }
")%string.

Definition body_marker : bytes :=
  bytes_lit "<body>".

Definition vr_html : bytes :=
  bytes_lit ("
    <button id=" ++ dq ++ "vrIcon" ++ dq ++ " onclick=" ++ dq ++ "window.location.href='./vr/'" ++ dq ++ " title=" ++ dq ++ "Enter VR (Quest Only)" ++ dq ++ ">
        <i class=" ++ dq ++ "fas fa-vr-cardboard" ++ dq ++ "></i>
    </button>
")%string.

Definition script_marker : bytes :=
  bytes_lit "populateGalleries();".

Definition detection_js : bytes :=
  bytes_lit ("
        // WebXR / Quest Detection
        async function checkVR() {
            const isQuest = /OculusBrowser|Quest/i.test(navigator.userAgent);
            const vrSupported = navigator.xr && await navigator.xr.isSessionSupported('immersive-vr');
            if (isQuest && vrSupported) {
                document.getElementById('vrIcon').style.display = 'block';
            }
        }
        checkVR();

        // Sync Tabs with URL Hash
        function syncTab() {
            const hash = window.location.hash.replace('#', '');
            if (hash && document.getElementById(hash)) {
                const btn = Array.from(document.querySelectorAll('.tab-link')).find(l => 
                    l.textContent.toLowerCase().includes(hash.toLowerCase()) || 
                    (hash === 'coding' && l.textContent.includes('DEV LOG')) ||
                    (hash === 'assets' && l.textContent.includes('TEXTURES'))
                );
                if (btn) btn.click();
            }
        }
        window.addEventListener('hashchange', syncTab);
        syncTab();
")%string.

Definition log_marker : bytes :=
  bytes_lit ("<div id=" ++ dq ++ "log-website" ++ dq ++ " class=" ++ dq ++ "sub-content" ++ dq ++ ">")%string.

Definition new_log : str :=
  (str_lit ("
                <div class=" ++ dq ++ "log-entry" ++ dq ++ ">
                    <div class=" ++ dq ++ "log-header" ++ dq ++ ">
                        <h3>")%string ++ [0x1F97D] ++ str_lit (" New Feature: WebXR VR Portal</h3>
                        <span class=" ++ dq ++ "log-date" ++ dq ++ ">JAN 12, 2026</span>
                    </div>
                    <div class=" ++ dq ++ "log-body" ++ dq ++ ">
                        <p>Meta Quest users rejoice! We've launched an experimental <strong>WebXR VR Portal</strong>. If you are browsing on a Quest 2 or 3, look for the VR icon in the bottom corner to enter an immersive voxel room.</p>
                        <p>The VR room features a central kiosk where you can jump directly back to specific site sections while remaining in your headset.</p>
                    </div>
                </div>")%string)%N.

(** [new_log.encode('utf-8')]; the literal holds no surrogate, so the call
    returns. *)
Definition new_log_encoded : bytes := default [] (utf8_encode new_log).

Definition add_style (data : bytes) : bytes :=
  if negb (contains (bytes_lit "#vrIcon") data)
  then replace css_marker (css_marker ++ vr_style) data
  else data.

Definition add_button (data : bytes) : bytes :=
  if negb (contains (bytes_lit ("id=" ++ dq ++ "vrIcon" ++ dq)) data)
  then replace body_marker (body_marker ++ vr_html) data
  else data.

Definition add_detection (data : bytes) : bytes :=
  if negb (contains (bytes_lit "checkVR();") data)
  then replace script_marker (script_marker ++ detection_js) data
  else data.

Definition add_devlog (data : bytes) : bytes :=
  if negb (contains (bytes_lit "WebXR VR Portal") data)
  then replace log_marker (log_marker ++ bytes_lit "
" ++ new_log_encoded) data
  else data.

(** The in-memory transformation between the read and the write. *)
Definition patch (data : bytes) : bytes :=
  add_devlog (add_detection (add_button (add_style data))).

Definition main : M unit :=
  data ← read_bytes path;
  write_bytes path (patch data);;
  print "Updated index.html with VR button, detection, and devlog.".

(** The four insertions as data. *)
Definition style_insertion : insertion byte :=
  Insertion (bytes_lit "#vrIcon") css_marker vr_style false.

Definition button_insertion : insertion byte :=
  Insertion (bytes_lit ("id=" ++ dq ++ "vrIcon" ++ dq)) body_marker vr_html false.

Definition detection_insertion : insertion byte :=
  Insertion (bytes_lit "checkVR();") script_marker detection_js false.

Definition devlog_insertion : insertion byte :=
  Insertion (bytes_lit "WebXR VR Portal") log_marker
            (bytes_lit "
" ++ new_log_encoded) false.

Definition insertions : list (insertion byte) :=
  [style_insertion; button_insertion; detection_insertion; devlog_insertion].

End UpdateWebsiteVr.

(** * Part II: general lemmas *)

(** ** Prefixes and occurrences *)

Section SequenceFacts.
Context {A : Type} `{EqDecision A}.
Implicit Types (s t u v w x y p m a f old new sep : list A).

Lemma startswith_app p v : startswith p (p ++ v) = true.
Proof. induction p as [|c p IH]; simpl; [done|]. by rewrite decide_True. Qed.

Lemma startswith_inv p s : startswith p s = true -> s = p ++ drop (length p) s.
Proof.
  revert s; induction p as [|c p IH]; intros [|d s]; simpl; try done.
  destruct (decide (c = d)) as [->|]; [|done].
  intros Hs. f_equal. by apply IH.
Qed.

Lemma startswith_iff p s : startswith p s = true <-> exists v, s = p ++ v.
Proof.
  split.
  - intros Hs. eexists. by apply startswith_inv.
  - intros [v ->]. apply startswith_app.
Qed.

Lemma startswith_nil_r p : startswith p [] = true -> p = [].
Proof. by destruct p. Qed.

Lemma contains_iff p s : contains p s = true <-> exists u v, s = u ++ p ++ v.
Proof.
  induction s as [|c s IH]; simpl.
  - rewrite orb_false_r, startswith_iff. split.
    + intros [v Hv]. by exists [], v.
    + intros (u & v & Huv). destruct u; [by exists v|done].
  - rewrite orb_true_iff, startswith_iff, IH. split.
    + intros [[v Hv]|(u & v & Huv)].
      * by exists [], v.
      * exists (c :: u), v. by rewrite Huv.
    + intros (u & v & Huv). destruct u as [|c' u]; simpl in Huv.
      * left. by exists v.
      * right. exists u, v. congruence.
Qed.

Lemma contains_intro p u v : contains p (u ++ p ++ v) = true.
Proof. apply contains_iff. by exists u, v. Qed.

Lemma contains_refl p : contains p p = true.
Proof. apply contains_iff. exists [], []. by rewrite app_nil_r. Qed.

Lemma contains_mono p s u v : contains p s = true -> contains p (u ++ s ++ v) = true.
Proof.
  rewrite !contains_iff. intros (u' & v' & ->).
  exists (u ++ u'), (v' ++ v). by rewrite <- !app_assoc.
Qed.

Lemma contains_app_l p s v : contains p s = true -> contains p (s ++ v) = true.
Proof. intros Hp. by apply (contains_mono p s [] v). Qed.

Lemma contains_app_r p s u : contains p s = true -> contains p (u ++ s) = true.
Proof.
  intros Hp. pose proof (contains_mono p s u [] Hp) as Hm.
  by rewrite app_nil_r in Hm.
Qed.

Lemma contains_trans p q s :
  contains p q = true -> contains q s = true -> contains p s = true.
Proof.
  intros Hpq (u & v & ->)%contains_iff. by apply contains_mono.
Qed.

Lemma contains_false_mono p s u v :
  contains p (u ++ s ++ v) = false -> contains p s = false.
Proof.
  intros Hn. apply not_true_iff_false. intros Hp.
  by rewrite (contains_mono p s u v Hp) in Hn.
Qed.

(** An occurrence of [m] in [X ++ Y] lies in [X], lies in [Y], or is cut
    in two non-empty halves by the boundary. *)
Lemma contains_app_cases m X Y :
  contains m (X ++ Y) = true ->
  contains m X = true \/ contains m Y = true \/
  exists x y, x <> [] /\ y <> [] /\ m = x ++ y /\
              (exists X', X = X' ++ x) /\ (exists Y', Y = y ++ Y').
Proof.
  intros (u & v & Huv)%contains_iff.
  apply app_eq_inv in Huv as [(k & -> & Hk)|(k & -> & ->)].
  - apply app_eq_inv in Hk as [(k' & -> & ->)|(k' & -> & ->)].
    + destruct k as [|c k].
      * right; left. apply (contains_intro k' [] v).
      * destruct k' as [|d k'].
        -- left. rewrite app_nil_r. apply contains_app_r, contains_refl.
        -- right; right. exists (c :: k), (d :: k'). eauto 10.
    + left. apply contains_intro.
  - right; left. apply contains_intro.
Qed.

(** *** [replace] *)

Lemma replace_from_replaced old new fuel s :
  old <> [] -> length s <= fuel -> replaced old new s (replace_from fuel old new s).
Proof.
  intros Hold. revert s. induction fuel as [|fuel IH]; intros s Hlen; simpl.
  - destruct s; [constructor|simpl in Hlen; lia].
  - destruct (startswith old s) eqn:Hs.
    + apply startswith_inv in Hs. rewrite Hs at 1. constructor. apply IH.
      rewrite length_drop. destruct old; [done|]. destruct s; simpl in *; [done|lia].
    + destruct s as [|c s]; [constructor|].
      constructor; [done|]. apply IH. simpl in Hlen. lia.
Qed.

Lemma replace_replaced old new s :
  old <> [] -> replaced old new s (replace old new s).
Proof.
  intros Hold. unfold replace. destruct old; [done|].
  by apply replace_from_replaced.
Qed.

Lemma contains_nil s : contains [] s = true.
Proof. by destruct s. Qed.

Lemma contains_cons_false p c s :
  contains p (c :: s) = false -> startswith p (c :: s) = false /\ contains p s = false.
Proof. simpl. by intros ?%orb_false_elim. Qed.

(** A text without the anchor is returned as it is. *)
Lemma replace_absent old new s : contains old s = false -> replace old new s = s.
Proof.
  intros Hn. unfold replace. destruct old as [|o old]; [by rewrite contains_nil in Hn|].
  generalize (length s) as fuel. intros fuel. revert s Hn.
  induction fuel as [|fuel IH]; intros s Hn; simpl; [done|].
  destruct s as [|c s].
  - done.
  - apply contains_cons_false in Hn as [Hs Hn]. simpl in Hs. rewrite Hs.
    f_equal. by apply IH.
Qed.

Lemma replaced_contains_new old new s t :
  old <> [] ->
  replaced old new s t -> contains old s = true -> contains new t = true.
Proof.
  intros Hold. induction 1 as [|c s t Hs _ IH|s t _ IH]; intros Hc.
  - by destruct old.
  - simpl in Hc. rewrite Hs in Hc. simpl in Hc.
    apply (contains_app_r _ _ [c]). by apply IH.
  - apply (contains_intro new [] t).
Qed.

(** *** Putting text at a boundary keeps and creates occurrences only
    when the pattern can be cut there *)

Lemma insert_keeps m X Y f :
  (forall x y, x <> [] -> y <> [] -> m = x ++ y ->
               (exists X', X = X' ++ x) -> (exists Y', Y = y ++ Y') -> False) ->
  contains m (X ++ Y) = true -> contains m (X ++ f ++ Y) = true.
Proof.
  intros Hcut [HX|[HY|(x & y & ? & ? & ? & ? & ?)]]%contains_app_cases.
  - by apply contains_app_l.
  - by apply contains_app_r, contains_app_r.
  - exfalso. eauto.
Qed.

Lemma existsb_seq_false (g : nat -> bool) lo n k :
  existsb g (seq lo n) = false -> lo <= k < lo + n -> g k = false.
Proof.
  intros He Hk. apply not_true_iff_false. intros Hg.
  apply not_true_iff_false in He. apply He, existsb_exists.
  exists k. split; [|done]. apply in_seq. lia.
Qed.

Lemma cut_length x y m :
  x <> [] -> y <> [] -> m = x ++ y -> 1 <= length x < 1 + (length m - 1).
Proof.
  intros Hx Hy ->. rewrite length_app.
  destruct x; [done|]. destruct y; [done|]. simpl. lia.
Qed.

Lemma no_cut_end a m w x y X' :
  straddles_end a m = false ->
  x <> [] -> y <> [] -> m = x ++ y -> w ++ a = X' ++ x -> False.
Proof.
  intros Hs Hx Hy Hm HX. unfold straddles_end in Hs.
  pose proof (existsb_seq_false _ _ _ (length x) Hs (cut_length x y m Hx Hy Hm)) as Hk.
  simpl in Hk. subst m. rewrite take_app_length in Hk.
  apply orb_false_elim in Hk as [Hk1 Hk2].
  apply app_eq_inv in HX as [(k & -> & ->)|(k & -> & ->)].
  - rewrite rev_app_distr, startswith_app in Hk2. done.
  - rewrite rev_app_distr, startswith_app in Hk1. done.
Qed.

Lemma no_cut_start a m Z x y Y' :
  straddles_start a m = false ->
  x <> [] -> y <> [] -> m = x ++ y -> a ++ Z = y ++ Y' -> False.
Proof.
  intros Hs Hx Hy Hm HY. unfold straddles_start in Hs.
  pose proof (existsb_seq_false _ _ _ (length x) Hs (cut_length x y m Hx Hy Hm)) as Hk.
  simpl in Hk. subst m. rewrite drop_app_length in Hk.
  apply orb_false_elim in Hk as [Hk1 Hk2].
  apply app_eq_inv in HY as [(k & -> & ->)|(k & -> & ->)].
  - rewrite startswith_app in Hk1. done.
  - rewrite startswith_app in Hk2. done.
Qed.

(** An occurrence of [m] survives the replacement of every [a] by
    [fl ++ a ++ fr] when [m] cannot be cut where text is put. *)
Lemma replaced_keeps m a fl fr s t :
  fl = [] \/ straddles_start a m = false ->
  fr = [] \/ straddles_end a m = false ->
  replaced a (fl ++ a ++ fr) s t ->
  forall w, contains m (w ++ s) = true -> contains m (w ++ t) = true.
Proof.
  intros Hl Hr. induction 1 as [|c s t _ _ IH|s t _ IH]; intros w Hm.
  - done.
  - specialize (IH (w ++ [c])). rewrite <- !app_assoc in IH. by apply IH.
  - specialize (IH (w ++ a)). rewrite <- !app_assoc in IH.
    apply IH in Hm.
    assert (contains m (w ++ a ++ fr ++ t) = true) as Hm'.
    { destruct Hr as [->|Hr]; [done|].
      rewrite (app_assoc w a), (app_assoc w a) in *.
      revert Hm. apply insert_keeps.
      intros x y Hx Hy Hxy [X' HX] _.
      exact (no_cut_end a m w x y X' Hr Hx Hy Hxy HX). }
    rewrite <- !app_assoc.
    destruct Hl as [->|Hl]; [done|].
    revert Hm'. apply insert_keeps.
    intros x y Hx Hy Hxy _ [Y' HY].
    exact (no_cut_start a m _ x y Y' Hl Hx Hy Hxy HY).
Qed.

Lemma startswith_refl p : startswith p p = true.
Proof. rewrite <- (app_nil_r p) at 2. apply startswith_app. Qed.

Lemma insert_cannot_create p f X Y :
  cannot_create p f = true ->
  contains p (X ++ Y) = false -> contains p (X ++ f ++ Y) = false.
Proof.
  unfold cannot_create. rewrite !andb_true_iff, !negb_true_iff.
  intros [[[Hin Hps] Hsp] Hsi] Hn.
  apply not_true_iff_false. intros Hp.
  assert (forall Z, contains p Z = true -> (exists u v, X ++ Y = u ++ Z ++ v) -> False)
    as Hsub.
  { intros Z HZ (u & v & HXY). rewrite HXY in Hn.
    by rewrite (contains_mono p Z u v HZ) in Hn. }
  apply contains_app_cases in Hp as [HX|[HfY|(x & y & Hx & Hy & -> & [X' ->] & [Y' HY])]].
  - apply (Hsub X HX). exists [], Y. done.
  - apply contains_app_cases in HfY as [Hf|[HY|(x & y & Hx & Hy & -> & [F' ->] & [Y' ->])]].
    + by rewrite Hf in Hin.
    + apply (Hsub Y HY). exists X, []. by rewrite app_nil_r.
    + unfold prefix_meets_suffix in Hps.
      pose proof (existsb_seq_false _ _ _ (length x) Hps (cut_length x y _ Hx Hy eq_refl)) as Hk.
      simpl in Hk. rewrite take_app_length, rev_app_distr, startswith_app in Hk. done.
  - pose proof (cut_length x y _ Hx Hy eq_refl) as Hlen.
    apply app_eq_inv in HY as [(k & -> & ->)|(k & -> & ->)].
    + unfold suffix_meets_prefix in Hsp.
      pose proof (existsb_seq_false _ _ _ (length x) Hsp Hlen) as Hk.
      simpl in Hk. rewrite drop_app_length, startswith_app in Hk. done.
    + destruct k as [|c k].
      * unfold suffix_meets_prefix in Hsp.
        pose proof (existsb_seq_false _ _ _ (length x) Hsp Hlen) as Hk.
        simpl in Hk. rewrite drop_app_length, app_nil_r, startswith_refl in Hk. done.
      * unfold strictly_inside in Hsi.
        pose proof (existsb_seq_false _ _ _ (length x) Hsi Hlen) as Hk.
        simpl in Hk. rewrite drop_app_length, startswith_app in Hk.
        simpl in Hk. apply Nat.ltb_ge in Hk.
        rewrite !length_app in Hk. simpl in Hk. lia.
Qed.

(** No occurrence of [p] appears when every [a] is replaced by
    [fl ++ a ++ fr] and neither fragment can create one. *)
Lemma replaced_cannot_create p a fl fr s t :
  fl = [] \/ cannot_create p fl = true ->
  fr = [] \/ cannot_create p fr = true ->
  replaced a (fl ++ a ++ fr) s t ->
  forall w, contains p (w ++ s) = false -> contains p (w ++ t) = false.
Proof.
  intros Hl Hr. induction 1 as [|c s t _ _ IH|s t _ IH]; intros w Hp.
  - done.
  - specialize (IH (w ++ [c])). rewrite <- !app_assoc in IH. by apply IH.
  - specialize (IH (w ++ a)). rewrite <- !app_assoc in IH.
    apply IH in Hp.
    assert (contains p (w ++ a ++ fr ++ t) = false) as Hp'.
    { destruct Hr as [->|Hr]; [done|].
      rewrite (app_assoc w a), (app_assoc w a) in *.
      by apply insert_cannot_create. }
    rewrite <- !app_assoc.
    destruct Hl as [->|Hl]; [done|].
    by apply insert_cannot_create.
Qed.

(** *** [split], [join], [count] and the length of the result *)

Lemma join_cons_cons sep c piece pieces :
  join sep ((c :: piece) :: pieces) = c :: join sep (piece :: pieces).
Proof. by destruct pieces. Qed.

Lemma join_nil_cons sep piece pieces :
  join sep ([] :: piece :: pieces) = sep ++ join sep (piece :: pieces).
Proof. done. Qed.

Lemma split_from_cons fuel sep s : exists piece pieces, split_from fuel sep s = piece :: pieces.
Proof.
  destruct fuel as [|fuel]; simpl; [eauto|].
  destruct (startswith sep s); [eauto|].
  destruct s as [|c s]; [eauto|].
  destruct (split_from fuel sep s); eauto.
Qed.

Lemma split_from_length fuel sep s :
  length (split_from fuel sep s) = S (count_from fuel sep s).
Proof.
  revert s. induction fuel as [|fuel IH]; intros s; simpl; [done|].
  destruct (startswith sep s).
  - simpl. by rewrite IH.
  - destruct s as [|c s]; [done|].
    destruct (split_from_cons fuel sep s) as (piece & pieces & Hsp).
    rewrite <- IH, Hsp. done.
Qed.

Lemma replace_from_join old new fuel s :
  replace_from fuel old new s = join new (split_from fuel old s).
Proof.
  revert s. induction fuel as [|fuel IH]; intros s; simpl; [done|].
  destruct (startswith old s).
  - destruct (split_from_cons fuel old (drop (length old) s)) as (piece & pieces & Hsp).
    rewrite IH, Hsp. done.
  - destruct s as [|c s]; [done|].
    rewrite IH. destruct (split_from_cons fuel old s) as (piece & pieces & ->).
    by rewrite join_cons_cons.
Qed.

Lemma join_split_from sep fuel s : join sep (split_from fuel sep s) = s.
Proof.
  revert s. induction fuel as [|fuel IH]; intros s; simpl; [done|].
  destruct (startswith sep s) eqn:Hs.
  - destruct (split_from_cons fuel sep (drop (length sep) s)) as (piece & pieces & Hsp).
    pose proof (IH (drop (length sep) s)) as IH'. rewrite Hsp in *.
    rewrite join_nil_cons, IH'. symmetry. by apply startswith_inv.
  - destruct s as [|c s]; [done|].
    pose proof (IH s) as IH'.
    destruct (split_from_cons fuel sep s) as (piece & pieces & Hsp).
    rewrite Hsp in *. rewrite join_cons_cons. by f_equal.
Qed.

Lemma replace_from_length old f fuel s :
  length (replace_from fuel old (old ++ f) s)
  = length s + count_from fuel old s * length f.
Proof.
  revert s. induction fuel as [|fuel IH]; intros s; simpl; [lia|].
  destruct (startswith old s) eqn:Hs.
  - apply startswith_inv, (f_equal length) in Hs. rewrite length_app in Hs.
    rewrite !length_app, IH. lia.
  - destruct s as [|c s]; simpl; [done|]. rewrite IH. lia.
Qed.

Lemma replace_from_length_before old f fuel s :
  length (replace_from fuel old (f ++ old) s)
  = length s + count_from fuel old s * length f.
Proof.
  revert s. induction fuel as [|fuel IH]; intros s; simpl; [lia|].
  destruct (startswith old s) eqn:Hs.
  - apply startswith_inv, (f_equal length) in Hs. rewrite length_app in Hs.
    rewrite !length_app, IH. lia.
  - destruct s as [|c s]; simpl; [done|]. rewrite IH. lia.
Qed.

(** *** Occurrences of a string that cannot overlap itself *)

Lemma occurrences_skip p x v :
  (forall k, k < length x -> startswith p (drop k (x ++ v)) = false) ->
  occurrences p (x ++ v) = occurrences p v.
Proof.
  induction x as [|c x IH]; intros Hk; [done|].
  pose proof (Hk 0 ltac:(simpl; lia)) as H0. simpl in H0.
  simpl. rewrite H0. simpl.
  apply IH. intros k Hlt. apply (Hk (S k)). simpl. lia.
Qed.

Lemma unbordered_no_overlap a v k :
  unbordered a = true -> 0 < k < length a ->
  startswith a (drop k (a ++ v)) = false.
Proof.
  unfold unbordered, prefix_meets_suffix. rewrite negb_true_iff.
  intros Hu Hk. apply not_true_iff_false. intros Hs.
  assert (1 <= length a - k < 1 + (length a - 1)) as Hj by lia.
  pose proof (existsb_seq_false _ _ _ (length a - k) Hu Hj) as Hb.
  simpl in Hb. apply not_true_iff_false in Hb. apply Hb. clear Hb Hu.
  rewrite drop_app_le in Hs by lia.
  apply startswith_iff in Hs as [z Hz].
  assert (drop k a = take (length a - k) a) as Hd.
  { apply (f_equal (take (length a - k))) in Hz.
    rewrite take_app_length' in Hz by (rewrite length_drop; lia).
    rewrite Hz. by rewrite take_app_le by lia. }
  rewrite <- Hd. rewrite <- (take_drop k a) at 2.
  rewrite rev_app_distr. apply startswith_app.
Qed.

Lemma occurrences_hit a v :
  a <> [] -> unbordered a = true -> occurrences a (a ++ v) = S (occurrences a v).
Proof.
  intros Ha Hu. destruct a as [|c a]; [done|].
  change (occurrences (c :: a) ((c :: a) ++ v))
    with ((if startswith (c :: a) ((c :: a) ++ v) then 1 else 0)
          + occurrences (c :: a) (a ++ v)).
  rewrite startswith_app. simpl Nat.add. f_equal.
  apply occurrences_skip. intros k Hk.
  apply (unbordered_no_overlap (c :: a) v (S k) Hu). simpl. lia.
Qed.

Lemma count_from_occurrences a fuel s :
  a <> [] -> unbordered a = true -> length s <= fuel ->
  count_from fuel a s = occurrences a s.
Proof.
  intros Ha Hu. revert s. induction fuel as [|fuel IH]; intros s Hlen.
  - destruct s; [|simpl in Hlen; lia]. simpl. by destruct a.
  - simpl. destruct (startswith a s) eqn:Hs.
    + pose proof (startswith_inv _ _ Hs) as Heq.
      rewrite IH.
      * rewrite <- occurrences_hit by done. by rewrite <- Heq.
      * rewrite length_drop. destruct a; [done|]. simpl. lia.
    + destruct s as [|d s]; [simpl; by rewrite Hs|].
      simpl occurrences. rewrite Hs. simpl. apply IH. simpl in Hlen. lia.
Qed.

(** *** What the result is made of *)

Lemma replaced_Forall (P : A -> Prop) old new s t :
  Forall P new -> replaced old new s t -> Forall P s -> Forall P t.
Proof.
  intros Hnew. induction 1 as [|c s t _ _ IH|s t _ IH]; intros Hs.
  - done.
  - inversion_clear Hs. constructor; auto.
  - apply Forall_app in Hs as [_ Hs]. apply Forall_app. auto.
Qed.

Lemma replace_Forall (P : A -> Prop) old new s :
  old <> [] -> Forall P new -> Forall P s -> Forall P (replace old new s).
Proof.
  intros Hold Hnew Hs.
  eapply replaced_Forall; [exact Hnew|by apply replace_replaced|exact Hs].
Qed.

End SequenceFacts.

(** ** Guarded insertions *)

Section InsertionFacts.
Context {A : Type} `{EqDecision A}.
Implicit Types (i j : insertion A) (s m p : list A) (l : list (insertion A)).

Lemma apply_insertion_marker_present i s :
  contains (marker i) s = true -> apply_insertion i s = s.
Proof. intros Hm. unfold apply_insertion. by rewrite Hm. Qed.

Lemma apply_insertion_anchor_absent i s :
  contains (anchor i) s = false -> apply_insertion i s = s.
Proof.
  intros Ha. unfold apply_insertion.
  destruct (negb _); [|done]. by apply replace_absent.
Qed.

Lemma apply_insertion_settled i s : settled i s = true -> apply_insertion i s = s.
Proof.
  unfold settled. intros [Hm|Ha%negb_true_iff]%orb_true_iff.
  - by apply apply_insertion_marker_present.
  - by apply apply_insertion_anchor_absent.
Qed.

(** The replacement text is the anchor with text on one side. *)
Lemma replacement_sides i :
  exists fl fr, replacement i = fl ++ anchor i ++ fr /\
                (if before i then fl = fragment i /\ fr = []
                 else fl = [] /\ fr = fragment i).
Proof.
  unfold replacement. destruct (before i).
  - exists (fragment i), []. by rewrite app_nil_r.
  - exists [], (fragment i). done.
Qed.

Lemma apply_insertion_keeps i m s :
  anchor i <> [] -> keeps i m = true ->
  contains m s = true -> contains m (apply_insertion i s) = true.
Proof.
  intros Ha Hk Hm. unfold apply_insertion. destruct (negb _); [|done].
  destruct (replacement_sides i) as (fl & fr & Hrep & Hside).
  pose proof (replace_replaced (anchor i) (replacement i) s Ha) as Hr.
  rewrite Hrep in Hr. rewrite Hrep.
  apply (replaced_keeps m (anchor i) fl fr s _) with (w := []); [| |done|done];
    unfold keeps in Hk; destruct (before i); destruct Hside as [-> ->];
    rewrite ?negb_true_iff in Hk; auto.
Qed.

Lemma apply_insertion_cannot_create i p s :
  anchor i <> [] -> cannot_create p (fragment i) = true ->
  contains p s = false -> contains p (apply_insertion i s) = false.
Proof.
  intros Ha Hc Hp. unfold apply_insertion. destruct (negb _); [|done].
  destruct (replacement_sides i) as (fl & fr & Hrep & Hside).
  pose proof (replace_replaced (anchor i) (replacement i) s Ha) as Hr.
  rewrite Hrep in Hr. rewrite Hrep.
  apply (replaced_cannot_create p (anchor i) fl fr s _) with (w := []); [| |done|done];
    destruct (before i); destruct Hside as [-> ->]; auto.
Qed.

Lemma contains_fragment_replacement i m :
  contains m (fragment i) = true -> contains m (replacement i) = true.
Proof.
  intros Hm. unfold replacement. destruct (before i).
  - by apply contains_app_l.
  - by apply contains_app_r.
Qed.

(** Where the guard lets the insertion through and the anchor is there,
    the replacement text is in the result. *)
Lemma apply_insertion_inserts i s :
  anchor i <> [] -> contains (marker i) s = false -> contains (anchor i) s = true ->
  contains (replacement i) (apply_insertion i s) = true.
Proof.
  intros Ha Hm Hs. unfold apply_insertion. rewrite Hm. simpl.
  eapply replaced_contains_new; [exact Ha|by apply replace_replaced|exact Hs].
Qed.



Lemma compatible_anchors l :
  compatible l = true -> Forall (fun j => anchor j <> []) l.
Proof.
  induction l as [|i l IH]; simpl; [constructor|].
  rewrite !andb_true_iff, negb_true_iff, bool_decide_eq_false.
  intros [[[Ha _] _] Hl]. constructor; auto.
Qed.



Lemma apply_all_settled l s :
  Forall (fun i => settled i s = true) l -> apply_all l s = s.
Proof.
  induction l as [|i l IH]; intros Hl; [done|].
  inversion_clear Hl. simpl. rewrite apply_insertion_settled by done. by apply IH.
Qed.


Lemma independent_anchors l :
  independent l = true -> Forall (fun j => anchor j <> []) l.
Proof.
  induction l as [|i l IH]; simpl; [constructor|].
  rewrite !andb_true_iff, negb_true_iff, bool_decide_eq_false.
  intros [[Ha _] Hl]. constructor; auto.
Qed.

Lemma apply_all_keeps m l s :
  Forall (fun j => anchor j <> []) l ->
  forallb (fun j => keeps j m) l = true ->
  contains m s = true -> contains m (apply_all l s) = true.
Proof.
  revert s. induction l as [|j l IH]; intros s Hanch Hk Hm; [done|].
  inversion_clear Hanch. simpl in Hk. apply andb_true_iff in Hk as [Hj Hk].
  simpl. apply IH; [done|done|]. by apply apply_insertion_keeps.
Qed.

(** On a text with every anchor and no marker, every insertion of an
    independent list is applied, and what each puts in is still there at
    the end. *)
Lemma apply_all_fresh l s :
  independent l = true ->
  Forall (fun i => contains (anchor i) s = true /\ contains (marker i) s = false) l ->
  apply_all l s = replace_all l s
  /\ Forall (fun i => contains (replacement i) (apply_all l s) = true) l.
Proof.
  revert s. induction l as [|i l IH]; intros s Hind Hs; [done|].
  pose proof (independent_anchors _ Hind) as Hanch.
  inversion_clear Hanch as [|? ? Hai Hal].
  simpl in Hind. rewrite !andb_true_iff in Hind. destruct Hind as [[_ Hpairs] Hind].
  inversion_clear Hs as [|? ? [Hia Him] Hl].
  assert (apply_insertion i s = replace (anchor i) (replacement i) s) as Hstep.
  { unfold apply_insertion. by rewrite Him. }
  destruct (IH (apply_insertion i s) Hind) as [IH1 IH2].
  { clear IH. induction l as [|j l IHl]; [constructor|].
    inversion_clear Hl as [|? ? [Hja Hjm] Hl']. simpl in Hpairs.
    rewrite !andb_true_iff in Hpairs. destruct Hpairs as [[[Hk Hc] _] Hpairs].
    inversion_clear Hal. simpl in Hind. rewrite !andb_true_iff in Hind.
    constructor.
    - split; [by apply apply_insertion_keeps|by apply apply_insertion_cannot_create].
    - apply IHl; tauto. }
  split.
  - simpl. rewrite IH1. unfold replace_all. simpl. by rewrite Hstep.
  - constructor; [|exact IH2]. simpl. apply apply_all_keeps; [done| |].
    + clear -Hpairs. induction l as [|j l IHl]; [done|]. simpl in *.
      rewrite !andb_true_iff in Hpairs. destruct Hpairs as [[[_ _] Hk] Hpairs].
      rewrite Hk. simpl. by apply IHl.
    + by apply apply_insertion_inserts.
Qed.

(** With the marker absent the insertion is a replacement at every
    occurrence of the anchor. *)
Lemma apply_insertion_global i s :
  anchor i <> [] -> unbordered (anchor i) = true -> contains (marker i) s = false ->
  count (anchor i) s = occurrences (anchor i) s
  /\ s = join (anchor i) (split (anchor i) s)
  /\ apply_insertion i s = join (replacement i) (split (anchor i) s)
  /\ length (split (anchor i) s) = S (occurrences (anchor i) s)
  /\ length (apply_insertion i s)
     = length s + occurrences (anchor i) s * length (fragment i).
Proof.
  intros Ha Hu Hm.
  assert (count (anchor i) s = occurrences (anchor i) s) as Hcount.
  { unfold count. destruct (anchor i) eqn:Heq; [done|]. rewrite <- Heq in *.
    by apply count_from_occurrences. }
  assert (count_from (length s) (anchor i) s = occurrences (anchor i) s) as Hcf.
  { rewrite <- Hcount. unfold count. by destruct (anchor i). }
  assert (apply_insertion i s = replace_from (length s) (anchor i) (replacement i) s)
    as Hstep.
  { unfold apply_insertion. rewrite Hm. simpl. unfold replace. by destruct (anchor i). }
  split; [done|]. split; [|split; [|split]].
  - unfold split. by rewrite join_split_from.
  - rewrite Hstep. unfold split. apply replace_from_join.
  - unfold split. by rewrite split_from_length, Hcf.
  - rewrite Hstep, <- Hcf. unfold replacement. destruct (before i).
    + apply replace_from_length_before.
    + apply replace_from_length.
Qed.

End InsertionFacts.

(** ** Regular expressions *)

Lemma sub_from_Forall (P : N -> Prop) r repl fuel s :
  Forall P repl -> Forall P s -> Forall P (sub_from fuel r repl s).
Proof.
  intros Hrepl. revert s. induction fuel as [|fuel IH]; intros s Hs; simpl; [done|].
  destruct (re_match r s) as [[|n]|].
  - apply Forall_app. split; [done|].
    destruct s as [|c s]; [done|]. inversion_clear Hs. constructor; auto.
  - apply Forall_app. split; [done|]. apply IH. by apply Forall_drop.
  - destruct s as [|c s]; [done|]. inversion_clear Hs. constructor; auto.
Qed.

Lemma re_sub_Forall (P : N -> Prop) r repl s :
  Forall P repl -> Forall P s -> Forall P (re_sub r repl s).
Proof. apply sub_from_Forall. Qed.

Lemma re_match_le r s n : re_match r s = Some n -> n <= length s.
Proof.
  unfold re_match. destruct (run r Some s); simpl; [|done].
  intros [= <-]. lia.
Qed.

(** The fuel does not matter once it exceeds the length of the text. *)
Lemma sub_from_fuel r repl fuel fuel' s :
  length s < fuel -> length s < fuel' ->
  sub_from fuel r repl s = sub_from fuel' r repl s.
Proof.
  revert fuel' s. induction fuel as [|fuel IH]; intros fuel' s Hf Hf'; [lia|].
  destruct fuel' as [|fuel']; [lia|]. simpl.
  destruct (re_match r s) as [[|n]|] eqn:Hm.
  - destruct s as [|c s]; [done|]. simpl in *. do 2 f_equal. apply IH; lia.
  - f_equal. apply re_match_le in Hm.
    apply IH; rewrite length_drop; lia.
  - destruct s as [|c s]; [done|]. simpl in *. f_equal. apply IH; lia.
Qed.

Lemma re_sub_unfold r repl s :
  re_sub r repl s =
  match re_match r s with
  | Some (S n) => repl ++ re_sub r repl (drop (S n) s)
  | Some O => repl ++ match s with
                      | [] => []
                      | c :: s' => c :: re_sub r repl s'
                      end
  | None => match s with
            | [] => []
            | c :: s' => c :: re_sub r repl s'
            end
  end.
Proof.
  unfold re_sub at 1. simpl.
  destruct (re_match r s) as [[|n]|] eqn:Hm.
  - destruct s as [|c s]; [done|]. done.
  - f_equal. apply re_match_le in Hm.
    apply sub_from_fuel; rewrite ?length_drop; lia.
  - by destruct s.
Qed.



(** *** What the building blocks match *)

Lemma run_chars classes k s :
  run (chars classes) k s =
  if fits classes s then k (drop (length classes) s) else None.
Proof.
  revert s. induction classes as [|ok classes IH]; intros s; simpl; [done|].
  destruct s as [|c s]; [done|]. simpl.
  destruct (ok c); simpl; [apply IH|done].
Qed.

Lemma fits_app classes s rest :
  spells classes s = true -> fits classes (s ++ rest) = true.
Proof.
  unfold spells. intros [Hlen Hfit]%andb_true_iff. clear Hlen.
  revert s Hfit. induction classes as [|ok classes IH]; intros [|c s] Hfit; simpl in *;
    try done.
  apply andb_true_iff in Hfit as [-> Hfit]. simpl. by apply IH.
Qed.

Lemma spells_length classes s : spells classes s = true -> length s = length classes.
Proof. unfold spells. by intros [Hlen%Nat.eqb_eq _]%andb_true_iff. Qed.

(** A lazy repetition finds a way through any run of the class after
    which the rest of the pattern matches. *)
Lemma rep_lazy_finds ok k junk t :
  forallb ok junk = true -> k t <> None -> rep_lazy ok k 0 (junk ++ t) <> None.
Proof.
  intros Hj Hk. induction junk as [|c junk IH]; simpl in *.
  - destruct t as [|d t]; simpl; destruct (k _); done.
  - apply andb_true_iff in Hj as [Hc Hj]. rewrite Hc.
    destruct (k (c :: junk ++ t)); [done|]. by apply IH.
Qed.

Lemma rep_greedy_Some ok lo s :
  rep_greedy ok Some lo s =
  if (lo <=? run_length ok s)%nat then Some (drop (run_length ok s) s) else None.
Proof.
  revert lo. induction s as [|c s IH]; intros lo; simpl.
  - by destruct lo.
  - destruct (ok c); simpl.
    + rewrite IH. destruct lo as [|lo]; simpl.
      * by destruct (run_length ok s).
      * destruct (lo <=? run_length ok s)%nat eqn:Hlo; [done|].
        destruct lo; [|done]. done.
    + by destruct lo.
Qed.

Lemma run_length_le ok s : run_length ok s <= length s.
Proof. induction s as [|c s IH]; simpl; [lia|]. destruct (ok c); simpl; lia. Qed.

Lemma run_length_drop ok s : run_length ok (drop (run_length ok s) s) = 0.
Proof.
  induction s as [|c s IH]; simpl; [done|].
  destruct (ok c) eqn:Hc; simpl; [done|]. by rewrite Hc.
Qed.

(** ** Blank lines: [re.sub(r'\n{3,}', '\n\n', content)] *)

#[local] Arguments N.eqb : simpl never.
#[local] Arguments Nat.leb : simpl never.

Lemma contains_cons {A} `{EqDecision A} (p : list A) c s :
  contains p (c :: s) = startswith p (c :: s) || contains p s.
Proof. done. Qed.

Lemma run_length_cons ok c (s : str) :
  run_length ok (c :: s) = if ok c then S (run_length ok s) else 0.
Proof. done. Qed.

Lemma re_match_blank_lines s :
  re_match FinalPolish.blank_lines s =
  if (3 <=? run_length (N.eqb LF) s)%nat then Some (run_length (N.eqb LF) s) else None.
Proof.
  unfold re_match, FinalPolish.blank_lines. simpl run. rewrite rep_greedy_Some.
  destruct (3 <=? _)%nat; [|done]. simpl. f_equal.
  rewrite length_drop. pose proof (run_length_le (N.eqb LF) s). lia.
Qed.

Lemma startswith_newlines k (t : str) :
  startswith (repeat LF k) t = (k <=? run_length (N.eqb LF) t)%nat.
Proof.
  revert t. induction k as [|k IH]; intros t; [done|].
  destruct t as [|c t]; [done|]. simpl.
  destruct (decide (LF = c)) as [<-|Hc].
  - rewrite N.eqb_refl. apply IH.
  - apply N.eqb_neq in Hc. by rewrite Hc.
Qed.


(** The result starts with as many newlines as the text, at most two, and
    has no three newlines in a row anywhere. *)
Lemma collapse_runs (s : str) :
  run_length (N.eqb LF) (re_sub FinalPolish.blank_lines [LF; LF] s)
  = Nat.min (run_length (N.eqb LF) s) 2
  /\ contains [LF; LF; LF] (re_sub FinalPolish.blank_lines [LF; LF] s) = false.
Proof.
  remember (length s) as len eqn:Hlen. revert s Hlen.
  induction len as [len IH] using lt_wf_ind. intros s ->.
  rewrite re_sub_unfold, re_match_blank_lines.
  destruct (3 <=? run_length (N.eqb LF) s)%nat eqn:Hrun.
  - apply Nat.leb_le in Hrun.
    destruct (run_length (N.eqb LF) s) as [|n] eqn:Hn; [lia|].
    pose proof (run_length_le (N.eqb LF) s) as Hle.
    pose proof (run_length_drop (N.eqb LF) s) as Hd. rewrite Hn in Hd, Hle.
    destruct (IH (length (drop (S n) s))) with (s := drop (S n) s) as [IH1 IH2];
      [rewrite length_drop; lia|done|].
    rewrite Hd in IH1. simpl in IH1.
    set (t := re_sub FinalPolish.blank_lines [LF; LF] (drop (S n) s)) in *.
    split.
    + change ([LF; LF] ++ t) with (LF :: LF :: t).
      rewrite !run_length_cons, N.eqb_refl, IH1. lia.
    + change ([LF; LF] ++ t) with (LF :: LF :: t).
      change [LF; LF; LF] with (repeat LF 3).
      rewrite !contains_cons, !startswith_newlines, !run_length_cons, N.eqb_refl, IH1.
      exact IH2.
  - apply Nat.leb_gt in Hrun. destruct s as [|c s]; [done|].
    destruct (IH (length s)) with (s := s) as [IH1 IH2]; [simpl; lia|done|].
    set (t := re_sub FinalPolish.blank_lines [LF; LF] s) in *.
    rewrite run_length_cons in Hrun.
    change [LF; LF; LF] with (repeat LF 3).
    rewrite contains_cons, startswith_newlines, !run_length_cons.
    destruct (LF =? c)%N.
    + rewrite IH1. split; [lia|].
      replace (3 <=? S (Nat.min (run_length (N.eqb LF) s) 2))%nat with false
        by (symmetry; apply Nat.leb_gt; lia).
      exact IH2.
    + split; [done|]. exact IH2.
Qed.




(** ** Line endings: [content.replace('\r\n', '\n')] *)








(** ** The codecs *)

Ltac Zify.zify_post_hook ::= Z.to_euclidean_division_equations.

#[local] Arguments N.ltb : simpl never.
#[local] Arguments N.leb : simpl never.
#[local] Arguments N.add : simpl never.
#[local] Arguments N.sub : simpl never.
#[local] Arguments N.mul : simpl never.
#[local] Arguments N.div : simpl never.
#[local] Arguments N.modulo : simpl never.

Lemma to_N_byte_of_N n : (n < 256)%N -> Byte.to_N (byte_of_N n) = n.
Proof.
  intros Hn. unfold byte_of_N. destruct (Byte.of_N n) as [b|] eqn:Hb.
  - by apply Byte.to_of_N.
  - apply Byte.of_N_None_iff in Hb. lia.
Qed.

Ltac decide_comparisons :=
  repeat match goal with
    | |- context [(?a <? ?b)%N] =>
        first [ replace (a <? b)%N with true by (symmetry; apply N.ltb_lt; lia)
              | replace (a <? b)%N with false by (symmetry; apply N.ltb_ge; lia) ]
    | |- context [(?a <=? ?b)%N] =>
        first [ replace (a <=? b)%N with true by (symmetry; apply N.leb_le; lia)
              | replace (a <=? b)%N with false by (symmetry; apply N.leb_gt; lia) ]
    end.

Lemma utf8_decode_char c e rest :
  utf8_encode_char c = Some e ->
  utf8_decode (e ++ rest) = cons c <$> utf8_decode rest.
Proof.
  unfold utf8_encode_char, is_surrogate.
  destruct (N.ltb_spec c 0x80).
  { intros [= <-]. cbn [app utf8_decode]. rewrite to_N_byte_of_N by lia.
    decide_comparisons. done. }
  destruct (N.ltb_spec c 0x800).
  { intros [= <-]. cbn [app utf8_decode]. unfold is_continuation, low6.
    rewrite !to_N_byte_of_N by lia. decide_comparisons. cbn [andb].
    do 2 f_equal. lia. }
  destruct (N.ltb_spec c 0x10000).
  { destruct (N.leb_spec 0xD800 c); destruct (N.ltb_spec c 0xE000); cbn [andb];
      try done; intros [= <-]; cbn [app utf8_decode]; unfold is_continuation, low6, is_surrogate;
      rewrite !to_N_byte_of_N by lia; decide_comparisons; cbn [andb negb];
      do 2 f_equal; lia. }
  destruct (N.ltb_spec c 0x110000); [|done].
  intros [= <-]. cbn [app utf8_decode]. unfold is_continuation, low6.
  rewrite !to_N_byte_of_N by lia. decide_comparisons. cbn [andb].
  do 2 f_equal. lia.
Qed.

(** Encoding then decoding gives the text back. *)
Lemma utf8_round_trip s data : utf8_encode s = Some data -> utf8_decode data = Some s.
Proof.
  revert data. induction s as [|c s IH]; intros data; simpl.
  - by intros [= <-].
  - destruct (utf8_encode_char c) as [e|] eqn:He; [|done].
    destruct (utf8_encode s) as [es|]; [|done].
    intros [= <-]. rewrite (utf8_decode_char c e es He), (IH es eq_refl). done.
Qed.

Lemma utf8_encode_char_encodable c : encodable c = true -> utf8_encode_char c <> None.
Proof.
  unfold encodable, utf8_encode_char. intros [Hc Hs%negb_true_iff]%andb_true_iff.
  rewrite Hs, Hc. by repeat destruct (_ <? _)%N.
Qed.

Lemma utf8_encode_total s :
  Forall (fun c => encodable c = true) s -> exists data, utf8_encode s = Some data.
Proof.
  induction 1 as [|c s Hc _ [es IH]]; simpl; [eauto|].
  destruct (utf8_encode_char c) as [e|] eqn:He.
  - rewrite IH. eauto.
  - by apply utf8_encode_char_encodable in Hc.
Qed.

(** ** Files *)

Lemma bind_ok {X Y} (m : M X) (f : X -> M Y) w x w' :
  m w = (Ok x, w') -> (m ≫= f) w = f x w'.
Proof. intros Hm. unfold mbind, M_bind. by rewrite Hm. Qed.

Lemma bind_raise {X Y} (m : M X) (f : X -> M Y) w e w' :
  m w = (Raise e, w') -> (m ≫= f) w = (Raise e, w').
Proof. intros Hm. unfold mbind, M_bind. by rewrite Hm. Qed.

Lemma path_exists_lookup fs p :
  p <> [] -> path_exists fs p = match fs !! p with Some _ => true | None => false end.
Proof. by destruct p. Qed.

Lemma isdir_lookup fs p :
  p <> [] -> isdir fs p = match fs !! p with Some Dir => true | _ => false end.
Proof. by destruct p. Qed.

Lemma read_bytes_spec p w :
  read_bytes p w =
  match files w !! p with
  | Some (File data) => (Ok data, w)
  | Some Dir => (Raise IsADirectoryError, w)
  | None => (Raise FileNotFoundError, w)
  end.
Proof.
  unfold read_bytes, mbind, M_bind, get_files. simpl.
  by destruct (files w !! p) as [[|data]|].
Qed.

Lemma open_truncate_spec p w :
  open_truncate p w =
  match files w !! p with
  | Some Dir => (Raise IsADirectoryError, w)
  | Some (File _) => (Ok tt, World (<[p := File []]> (files w)) (stdout w))
  | None =>
      if isdir (files w) (dirname p)
      then (Ok tt, World (<[p := File []]> (files w)) (stdout w))
      else (Raise FileNotFoundError, w)
  end.
Proof.
  unfold open_truncate, mbind, M_bind, get_files. simpl.
  destruct (files w !! p) as [[|data]|]; [done|done|].
  by destruct (isdir _ _).
Qed.

Lemma write_bytes_file p data w old :
  files w !! p = Some (File old) ->
  write_bytes p data w = (Ok tt, World (<[p := File data]> (files w)) (stdout w)).
Proof.
  intros Hp. unfold write_bytes.
  erewrite bind_ok; [|by rewrite open_truncate_spec, Hp].
  unfold set_node. simpl. by rewrite insert_insert_eq.
Qed.

Lemma read_text_spec p w :
  read_text p w =
  match files w !! p with
  | Some (File data) =>
      match utf8_decode data with
      | Some s => (Ok (universal_newlines s), w)
      | None => (Raise UnicodeDecodeError, w)
      end
  | Some Dir => (Raise IsADirectoryError, w)
  | None => (Raise FileNotFoundError, w)
  end.
Proof.
  unfold read_text, mbind, M_bind. rewrite read_bytes_spec.
  destruct (files w !! p) as [[|data]|]; [done| |done].
  by destruct (utf8_decode data).
Qed.

(** *** [os.makedirs] *)

Lemma dirname_rev_cons x (rhead : list string) : dirname (rev (x :: rhead)) = rev rhead.
Proof. unfold dirname. simpl. apply removelast_last. Qed.

Lemma mkdir_spec p w :
  p <> [] ->
  mkdir p w =
  match files w !! p with
  | Some _ => (Raise FileExistsError, w)
  | None =>
      if isdir (files w) (dirname p)
      then (Ok tt, World (<[p := Dir]> (files w)) (stdout w))
      else if path_exists (files w) (dirname p) then (Raise NotADirectoryError, w)
      else (Raise FileNotFoundError, w)
  end.
Proof.
  intros Hp. unfold mkdir, mbind, M_bind, get_files. simpl.
  rewrite path_exists_lookup by done.
  destruct (files w !! p); [done|].
  destruct (isdir _ _); [done|]. by destruct (path_exists _ _).
Qed.

Lemma grown_at_refl p fs : grown_at p fs fs.
Proof. intros q. by left. Qed.

Lemma grown_at_trans p p' fs1 fs2 fs3 :
  p `prefix_of` p' -> grown_at p fs1 fs2 -> grown_at p' fs2 fs3 -> grown_at p' fs1 fs3.
Proof.
  intros Hpp H12 H23 q.
  destruct (H23 q) as [H3|(Hq & Hn & Hd)]; destruct (H12 q) as [H2|(Hq' & Hn' & Hd')].
  - left. congruence.
  - right. split; [by etrans|]. split; [done|congruence].
  - right. split; [done|]. split; congruence.
  - congruence.
Qed.

Lemma mkdir_exist_ok_spec p w :
  p <> [] ->
  exists r w', mkdir_exist_ok p w = (r, w') /\ stdout w' = stdout w
               /\ grown_at p (files w) (files w')
               /\ (r = Ok tt -> isdir (files w') p = true)
               /\ ((forall data, files w !! p <> Some (File data)) ->
                   isdir (files w) (dirname p) = true -> r = Ok tt).
Proof.
  intros Hp. unfold mkdir_exist_ok. rewrite mkdir_spec by done.
  destruct (files w !! p) as [[|data]|] eqn:Hlook.
  - rewrite isdir_lookup, Hlook by done.
    exists (Ok tt), w. repeat split; auto using grown_at_refl.
    by rewrite isdir_lookup, Hlook.
  - rewrite isdir_lookup, Hlook by done.
    exists (Raise FileExistsError), w. repeat split; auto using grown_at_refl.
    + done.
    + intros Hf. by destruct (Hf data).
  - destruct (isdir (files w) (dirname p)) eqn:Hd.
    + eexists (Ok tt), _. split; [done|]. simpl. repeat split.
      * intros q. destruct (decide (p = q)) as [<-|Hq].
        -- right. by rewrite lookup_insert_eq.
        -- left. by rewrite lookup_insert_ne.
      * intros _. by rewrite isdir_lookup, lookup_insert_eq.
    + destruct (path_exists (files w) (dirname p)).
      * rewrite isdir_lookup, Hlook by done.
        eexists _, w. split; [done|]. repeat split; auto using grown_at_refl; done.
      * rewrite isdir_lookup, Hlook by done.
        eexists _, w. split; [done|]. repeat split; auto using grown_at_refl; done.
Qed.

Lemma swallow_file_exists_spec (m : M unit) w r w' :
  m w = (r, w') ->
  exists r', swallow_file_exists m w = (r', w')
             /\ (r = Ok tt -> r' = Ok tt) /\ (r' = Ok tt \/ r' = r).
Proof.
  intros Hm. unfold swallow_file_exists. rewrite Hm.
  destruct r as [[]|[]]; eauto.
Qed.

Lemma not_file_grown p fs fs' q :
  grown_at p fs fs' ->
  (forall data, fs !! q <> Some (File data)) -> forall data, fs' !! q <> Some (File data).
Proof.
  intros Hg Hq data. destruct (Hg q) as [->|(_ & _ & ->)]; [apply Hq|done].
Qed.

Lemma makedirs_rev_spec rp w :
  exists r w', makedirs_rev rp w = (r, w') /\ stdout w' = stdout w
               /\ grown_at (rev rp) (files w) (files w')
               /\ (r = Ok tt -> isdir (files w') (rev rp) = true)
               /\ ((forall q data, q `prefix_of` rev rp -> files w !! q <> Some (File data)) ->
                   r = Ok tt).
Proof.
  revert w. induction rp as [|x rhead IH]; intros w.
  { exists (Ok tt), w. repeat split; auto using grown_at_refl. }
  assert (rev rhead `prefix_of` rev (x :: rhead)) as Hpre by (simpl; by eexists).
  assert (rev (x :: rhead) <> []) as Hne by (simpl; by destruct (rev rhead)).
  (* the parent *)
  assert (exists r1 w1,
    (match rhead with
     | [] => mret tt
     | _ :: _ => if path_exists (files w) (rev rhead) then mret tt
                 else swallow_file_exists (makedirs_rev rhead)
     end) w = (r1, w1)
    /\ stdout w1 = stdout w /\ grown_at (rev rhead) (files w) (files w1)
    /\ ((forall q data, q `prefix_of` rev rhead -> files w !! q <> Some (File data)) ->
        r1 = Ok tt /\ isdir (files w1) (rev rhead) = true)) as (r1 & w1 & Hin & Hout1 & Hg1 & Hok1).
  { destruct rhead as [|y rhead'] eqn:Hrh.
    - exists (Ok tt), w. split; [done|]. split; [done|].
      split; [apply grown_at_refl|]. done.
    - rewrite <- Hrh in *. clear Hrh.
      destruct (path_exists (files w) (rev rhead)) eqn:Hex.
      + exists (Ok tt), w. split; [done|]. split; [done|].
        split; [apply grown_at_refl|]. intros Hfree. split; [done|].
        destruct (decide (rev rhead = [])) as [->|Hr]; [done|].
        rewrite path_exists_lookup in Hex by done. rewrite isdir_lookup by done.
        destruct (files w !! rev rhead) as [[|data]|] eqn:Hl; [done| |done].
        exfalso. by apply (Hfree (rev rhead) data).
      + destruct (IH w) as (r & w' & Hm & Hout & Hg & Hdir & Hsucc).
        destruct (swallow_file_exists_spec _ _ _ _ Hm) as (r' & Hsw & Hr1 & Hr2).
        exists r', w'. split; [done|]. split; [done|]. split; [done|].
        intros Hfree. specialize (Hsucc Hfree). split; auto. }
  destruct (mkdir_exist_ok_spec (rev (x :: rhead)) w1 Hne)
    as (r2 & w2 & Hmk & Hout2 & Hg2 & Hdir2 & Hsucc2).
  change (makedirs_rev (x :: rhead) w) with
    ((get_files ≫= (fun fs =>
        (match rhead with
         | [] => mret tt
         | _ :: _ => if path_exists fs (rev rhead) then mret tt
                     else swallow_file_exists (makedirs_rev rhead)
         end) ≫= (fun _ => mkdir_exist_ok (rev (x :: rhead))))) w).
  erewrite bind_ok; [|reflexivity].
  destruct r1 as [[]|e].
  - erewrite bind_ok; [|exact Hin]. rewrite Hmk.
    exists r2, w2. repeat split.
    + congruence.
    + eapply grown_at_trans; eauto.
    + exact Hdir2.
    + intros Hfree. apply Hsucc2.
      * apply (not_file_grown _ _ _ _ Hg1). intros data. by apply Hfree.
      * rewrite dirname_rev_cons. apply Hok1. intros q data Hq.
        apply Hfree. by etrans.
  - erewrite bind_raise; [|exact Hin].
    exists (Raise e), w1. repeat split; auto.
    + intros q. destruct (Hg1 q) as [?|(Hq & ? & ?)]; [by left|right].
      split; [by etrans|done].
    + done.
    + intros Hfree. destruct Hok1 as [Hok1 _]; [|done].
      intros q data Hq. apply Hfree. by etrans.
Qed.

(** ** The injector scripts *)

Lemma forallb_Forall {X} (f : X -> bool) (l : list X) :
  forallb f l = true -> Forall (fun x => f x = true) l.
Proof.
  induction l as [|x l IH]; simpl; [constructor|].
  intros [Hx Hl]%andb_true_iff. constructor; auto.
Qed.

Lemma site_patch_apply_all data :
  UpdateWebsiteVr.patch data = apply_all UpdateWebsiteVr.insertions data.
Proof. reflexivity. Qed.


Lemma site_main_spec w :
  UpdateWebsiteVr.main w =
  match files w !! UpdateWebsiteVr.path with
  | Some (File data) =>
      (Ok tt, World (<[UpdateWebsiteVr.path := File (UpdateWebsiteVr.patch data)]> (files w))
                    (stdout w ++ ["Updated index.html with VR button, detection, and devlog."%string]))
  | Some Dir => (Raise IsADirectoryError, w)
  | None => (Raise FileNotFoundError, w)
  end.
Proof.
  unfold UpdateWebsiteVr.main.
  destruct (files w !! UpdateWebsiteVr.path) as [[|data]|] eqn:Hp.
  - erewrite bind_raise; [done|by rewrite read_bytes_spec, Hp].
  - erewrite bind_ok; [|by rewrite read_bytes_spec, Hp].
    erewrite bind_ok; [|by eapply write_bytes_file]. done.
  - erewrite bind_raise; [done|by rewrite read_bytes_spec, Hp].
Qed.

(** The preview script never gets to run. *)
Lemma preview_main_raises w : UpdateVrPreview.main w = (Raise SyntaxError, w).
Proof. reflexivity. Qed.

(** * Part III: the properties of the scripts *)

(** ** The injectors *)



(** C3 (anchor-miss safety).  For each of the four guarded insertions of
    the site-integration injector, a content without the anchor comes
    back exactly as it went in, whether or not the marker is there; the
    steps are total functions, so nothing is raised and nothing is half
    written.  The UI-preview injector raises on every run, with or
    without the anchors: its file does not compile, and the run ends in
    [SyntaxError] with the files as they were. *)
Theorem C3_site_anchor_miss_preview_never_runs :
  (forall data,
     contains UpdateWebsiteVr.css_marker data = false ->
     UpdateWebsiteVr.add_style data = data)
  /\ (forall data,
        contains UpdateWebsiteVr.body_marker data = false ->
        UpdateWebsiteVr.add_button data = data)
  /\ (forall data,
        contains UpdateWebsiteVr.script_marker data = false ->
        UpdateWebsiteVr.add_detection data = data)
  /\ (forall data,
        contains UpdateWebsiteVr.log_marker data = false ->
        UpdateWebsiteVr.add_devlog data = data)
  /\ (forall w, UpdateVrPreview.main w = (Raise SyntaxError, w)).
Proof.
  repeat split.
  - intros data. exact (apply_insertion_anchor_absent UpdateWebsiteVr.style_insertion data).
  - intros data. exact (apply_insertion_anchor_absent UpdateWebsiteVr.button_insertion data).
  - intros data. exact (apply_insertion_anchor_absent UpdateWebsiteVr.detection_insertion data).
  - intros data. exact (apply_insertion_anchor_absent UpdateWebsiteVr.devlog_insertion data).
Qed.

Lemma C3_site_anchor_miss_preview_never_runs_witness :
  UpdateWebsiteVr.add_style (bytes_lit "<html><p>no anchors here</p></html>")
  = bytes_lit "<html><p>no anchors here</p></html>"
  /\ UpdateVrPreview.main
       (World {[UpdateVrPreview.path
                := File (bytes_lit "<html><p>no anchors here</p></html>")]} [])
     = (Raise SyntaxError,
        World {[UpdateVrPreview.path
                := File (bytes_lit "<html><p>no anchors here</p></html>")]} []).
Proof.
  split.
  - apply (proj1 C3_site_anchor_miss_preview_never_runs). vm_compute. reflexivity.
  - apply (proj2 (proj2 (proj2 (proj2 C3_site_anchor_miss_preview_never_runs)))).
Defined.

(** C4 (guard correctness, site-integration injector): when the marker of
    one of the four insertions is already in the input, that insertion
    changes nothing and the whole patch is the patch made of the other
    three insertions only, so its fragment is not put in again. *)
Theorem C4_marker_present_skips_insertion :
  forall data,
    (contains (bytes_lit "#vrIcon") data = true ->
     UpdateWebsiteVr.add_style data = data
     /\ UpdateWebsiteVr.patch data
        = UpdateWebsiteVr.add_devlog
            (UpdateWebsiteVr.add_detection (UpdateWebsiteVr.add_button data)))
    /\ (contains (bytes_lit ("id=" ++ dq ++ "vrIcon" ++ dq)) data = true ->
        UpdateWebsiteVr.add_button data = data
        /\ UpdateWebsiteVr.patch data
           = UpdateWebsiteVr.add_devlog
               (UpdateWebsiteVr.add_detection (UpdateWebsiteVr.add_style data)))
    /\ (contains (bytes_lit "checkVR();") data = true ->
        UpdateWebsiteVr.add_detection data = data
        /\ UpdateWebsiteVr.patch data
           = UpdateWebsiteVr.add_devlog
               (UpdateWebsiteVr.add_button (UpdateWebsiteVr.add_style data)))
    /\ (contains (bytes_lit "WebXR VR Portal") data = true ->
        UpdateWebsiteVr.add_devlog data = data
        /\ UpdateWebsiteVr.patch data
           = UpdateWebsiteVr.add_detection
               (UpdateWebsiteVr.add_button (UpdateWebsiteVr.add_style data))).
Proof.
  intros data.
  assert (forall m d, keeps UpdateWebsiteVr.style_insertion m = true ->
                      contains m d = true ->
                      contains m (UpdateWebsiteVr.add_style d) = true) as K1.
  { intros m d. by apply (apply_insertion_keeps UpdateWebsiteVr.style_insertion). }
  assert (forall m d, keeps UpdateWebsiteVr.button_insertion m = true ->
                      contains m d = true ->
                      contains m (UpdateWebsiteVr.add_button d) = true) as K2.
  { intros m d. by apply (apply_insertion_keeps UpdateWebsiteVr.button_insertion). }
  assert (forall m d, keeps UpdateWebsiteVr.detection_insertion m = true ->
                      contains m d = true ->
                      contains m (UpdateWebsiteVr.add_detection d) = true) as K3.
  { intros m d. by apply (apply_insertion_keeps UpdateWebsiteVr.detection_insertion). }
  unfold UpdateWebsiteVr.patch.
  split; [|split; [|split]]; intros Hm.
  - pose proof (apply_insertion_marker_present UpdateWebsiteVr.style_insertion data Hm) as Hs.
    change (UpdateWebsiteVr.add_style data = data) in Hs. by rewrite Hs.
  - split; [exact (apply_insertion_marker_present UpdateWebsiteVr.button_insertion data Hm)|].
    do 2 f_equal.
    apply (apply_insertion_marker_present UpdateWebsiteVr.button_insertion).
    apply K1; [vm_compute; reflexivity|exact Hm].
  - split; [exact (apply_insertion_marker_present UpdateWebsiteVr.detection_insertion data Hm)|].
    f_equal.
    apply (apply_insertion_marker_present UpdateWebsiteVr.detection_insertion).
    apply K2; [vm_compute; reflexivity|].
    apply K1; [vm_compute; reflexivity|exact Hm].
  - split; [exact (apply_insertion_marker_present UpdateWebsiteVr.devlog_insertion data Hm)|].
    apply (apply_insertion_marker_present UpdateWebsiteVr.devlog_insertion).
    apply K3; [vm_compute; reflexivity|].
    apply K2; [vm_compute; reflexivity|].
    apply K1; [vm_compute; reflexivity|exact Hm].
Qed.

Lemma C4_marker_present_skips_insertion_witness :
  UpdateWebsiteVr.add_button
    (bytes_lit ("<body><button id=" ++ dq ++ "vrIcon" ++ dq ++ "></button></body>"))
  = bytes_lit ("<body><button id=" ++ dq ++ "vrIcon" ++ dq ++ "></button></body>").
Proof.
  apply (proj1 (proj2 (C4_marker_present_skips_insertion
    (bytes_lit ("<body><button id=" ++ dq ++ "vrIcon" ++ dq ++ "></button></body>"))))).
  vm_compute. reflexivity.
Defined.

(** C5 (a fresh document gets all four insertions): on a document that
    holds the four anchors and none of the four markers, every guard lets
    its insertion through, so the patch is the four replacements in a row,
    and each anchor followed by its fragment is in the output; no fragment
    holds the anchor or the marker of a later insertion. *)
Theorem C5_fresh_document_gets_all_four :
  forall data,
    Forall (fun i => contains (anchor i) data = true /\ contains (marker i) data = false)
           UpdateWebsiteVr.insertions ->
    UpdateWebsiteVr.patch data = replace_all UpdateWebsiteVr.insertions data
    /\ contains (UpdateWebsiteVr.css_marker ++ UpdateWebsiteVr.vr_style)
                (UpdateWebsiteVr.patch data) = true
    /\ contains (UpdateWebsiteVr.body_marker ++ UpdateWebsiteVr.vr_html)
                (UpdateWebsiteVr.patch data) = true
    /\ contains (UpdateWebsiteVr.script_marker ++ UpdateWebsiteVr.detection_js)
                (UpdateWebsiteVr.patch data) = true
    /\ contains (UpdateWebsiteVr.log_marker ++ bytes_lit "
" ++ UpdateWebsiteVr.new_log_encoded)
                (UpdateWebsiteVr.patch data) = true
    /\ later_free UpdateWebsiteVr.insertions = true.
Proof.
  intros data Hfresh.
  destruct (apply_all_fresh UpdateWebsiteVr.insertions data) as [Heq Hall];
    [vm_compute; reflexivity|exact Hfresh|].
  rewrite site_patch_apply_all.
  split; [exact Heq|].
  inversion_clear Hall as [|? ? H1 Hall'].
  inversion_clear Hall' as [|? ? H2 Hall''].
  inversion_clear Hall'' as [|? ? H3 Hall'''].
  inversion_clear Hall''' as [|? ? H4 _].
  split; [exact H1|]. split; [exact H2|]. split; [exact H3|]. split; [exact H4|].
  vm_compute. reflexivity.
Qed.

Lemma C5_fresh_document_gets_all_four_witness :
  UpdateWebsiteVr.patch
    (bytes_lit ("<style>.x { box-shadow: 4px 4px 0px #000; }</style><body><div id="
                ++ dq ++ "log-website" ++ dq ++ " class=" ++ dq ++ "sub-content" ++ dq
                ++ "></div><script>populateGalleries();</script></body>"))
  = replace_all UpdateWebsiteVr.insertions
      (bytes_lit ("<style>.x { box-shadow: 4px 4px 0px #000; }</style><body><div id="
                  ++ dq ++ "log-website" ++ dq ++ " class=" ++ dq ++ "sub-content" ++ dq
                  ++ "></div><script>populateGalleries();</script></body>")).
Proof.
  apply C5_fresh_document_gets_all_four.
  repeat constructor; vm_compute; reflexivity.
Defined.

Lemma join_two {A} (sep : list A) (pieces : list (list A)) :
  length pieces = 2 -> exists u v, pieces = [u; v] /\ join sep pieces = u ++ sep ++ v.
Proof.
  destruct pieces as [|u [|v [|x pieces]]]; try done.
  intros _. by exists u, v.
Qed.

Lemma replaces_everywhere_intro {A} `{EqDecision A} (i : insertion A) :
  anchor i <> [] -> unbordered (anchor i) = true -> replaces_everywhere i.
Proof.
  intros Ha Hu content Hm.
  destruct (apply_insertion_global i content Ha Hu Hm) as (H1 & H2 & H3 & H4 & H5).
  repeat split; try assumption.
  intros Hone. rewrite Hone in H4.
  destruct (join_two (anchor i) _ H4) as (u & v & Hp & Hj).
  exists u, v. split; [congruence|]. rewrite H3, Hp. done.
Qed.

(** C10 (global replacement).  Each of the four guarded insertions of the
    site-integration injector, on a content without its marker, puts its
    fragment next to every occurrence of its anchor: with [k] occurrences
    the result holds [k] copies more, and exactly one copy when the
    anchor occurs exactly once; the patch of the script is these
    insertions applied in order.  The UI-preview injector inserts nothing
    at all, however often its anchors occur: its file does not compile
    and every run ends in [SyntaxError] with the files as they were. *)
Theorem C10_site_every_occurrence_preview_never_runs :
  Forall replaces_everywhere UpdateWebsiteVr.insertions
  /\ (forall data, UpdateWebsiteVr.patch data = apply_all UpdateWebsiteVr.insertions data)
  /\ (forall w, UpdateVrPreview.main w = (Raise SyntaxError, w)).
Proof.
  split; [|split; [reflexivity|exact preview_main_raises]].
  unfold UpdateWebsiteVr.insertions.
  constructor; [|constructor; [|constructor; [|constructor; [|constructor]]]];
    (apply replaces_everywhere_intro; [done|vm_compute; reflexivity]).
Qed.

Lemma C10_site_every_occurrence_preview_never_runs_witness :
  length (apply_insertion UpdateWebsiteVr.button_insertion
            (bytes_lit "<body>one</body><body>two</body>"))
  = length (bytes_lit "<body>one</body><body>two</body>")
    + 2 * length UpdateWebsiteVr.vr_html
  /\ UpdateVrPreview.main
       (World {[UpdateVrPreview.path
                := File (bytes_lit "<body>one</body><body>two</body>")]} [])
     = (Raise SyntaxError,
        World {[UpdateVrPreview.path
                := File (bytes_lit "<body>one</body><body>two</body>")]} []).
Proof.
  split.
  - pose proof (proj1 C10_site_every_occurrence_preview_never_runs) as Hall.
    apply Forall_inv_tail, Forall_inv in Hall.
    destruct (Hall (bytes_lit "<body>one</body><body>two</body>")) as (_ & _ & _ & _ & H & _).
    + vm_compute. reflexivity.
    + exact H.
  - apply (proj2 (proj2 C10_site_every_occurrence_preview_never_runs)).
Defined.

(** ** Missing target file *)

Lemma final_polish_main_spec w :
  FinalPolish.main w =
  match files w !! FinalPolish.path with
  | None => (Raise FileNotFoundError, w)
  | Some Dir => (Raise IsADirectoryError, w)
  | Some (File data) =>
      match utf8_encode (FinalPolish.polish data) with
      | Some out =>
          (Ok tt, World (<[FinalPolish.path := File out]> (files w))
                        (stdout w ++ ["Website fully restored and polished."%string]))
      | None =>
          (Raise UnicodeEncodeError,
           World (<[FinalPolish.path := File []]> (files w)) (stdout w))
      end
  end.
Proof.
  unfold FinalPolish.main.
  destruct (files w !! FinalPolish.path) as [[|data]|] eqn:Hp.
  - erewrite bind_raise; [done|]. unfold FinalPolish.final_polish.
    erewrite bind_raise; [done|by rewrite read_bytes_spec, Hp].
  - destruct (utf8_encode (FinalPolish.polish data)) as [out|] eqn:He.
    + assert (FinalPolish.final_polish w
              = (Ok tt, World (<[FinalPolish.path := File out]> (files w)) (stdout w)))
        as Hf.
      { unfold FinalPolish.final_polish.
        erewrite bind_ok; [|by rewrite read_bytes_spec, Hp].
        erewrite bind_ok; [|by rewrite open_truncate_spec, Hp].
        rewrite He. unfold set_node. cbn [files stdout]. by rewrite insert_insert_eq. }
      erewrite bind_ok; [|exact Hf]. done.
    + assert (FinalPolish.final_polish w
              = (Raise UnicodeEncodeError,
                 World (<[FinalPolish.path := File []]> (files w)) (stdout w)))
        as Hf.
      { unfold FinalPolish.final_polish.
        erewrite bind_ok; [|by rewrite read_bytes_spec, Hp].
        erewrite bind_ok; [|by rewrite open_truncate_spec, Hp].
        by rewrite He. }
      erewrite bind_raise; [|exact Hf]. done.
  - erewrite bind_raise; [done|]. unfold FinalPolish.final_polish.
    erewrite bind_raise; [done|by rewrite read_bytes_spec, Hp].
Qed.

(** C9 (the existence check of the UI-preview injector).  The check of
    lines 5 to 7 is never reached: the file does not compile, so with the
    target missing or present the run ends in [SyntaxError], status 1,
    with nothing on the standard output and the files as they were; the
    message of the check is not printed and, with the target present, the
    script does not go on to read, patch and write.  The two other
    scripts that read their target have no such check: with the target
    missing their [open] raises [FileNotFoundError], which nothing
    catches, and they print nothing. *)
Theorem C9_preview_never_reaches_its_check :
  (forall w, UpdateVrPreview.main w = (Raise SyntaxError, w))
  /\ (forall w,
        exit_status (UpdateVrPreview.main w).1 = 1%N
        /\ stdout (UpdateVrPreview.main w).2 = stdout w
        /\ files (UpdateVrPreview.main w).2 = files w)
  /\ (forall w,
        files w !! UpdateWebsiteVr.path = None ->
        UpdateWebsiteVr.main w = (Raise FileNotFoundError, w))
  /\ (forall w,
        files w !! FinalPolish.path = None ->
        FinalPolish.main w = (Raise FileNotFoundError, w)).
Proof.
  split; [exact preview_main_raises|]. split; [|split].
  - intros w. by rewrite preview_main_raises.
  - intros w Hp. by rewrite site_main_spec, Hp.
  - intros w Hp. by rewrite final_polish_main_spec, Hp.
Qed.

(** The target missing: no message of the check on the standard output.
    The target present: the run does not go on to patch it. *)
Lemma C9_preview_never_reaches_its_check_witness :
  UpdateVrPreview.main (World ∅ []) = (Raise SyntaxError, World ∅ [])
  /\ UpdateVrPreview.main
       (World {[UpdateVrPreview.path
                := File (bytes_lit "<html><head></head><body></body></html>")]} [])
     = (Raise SyntaxError,
        World {[UpdateVrPreview.path
                := File (bytes_lit "<html><head></head><body></body></html>")]} []).
Proof.
  split; apply (proj1 C9_preview_never_reaches_its_check).
Defined.

(** ** The Page Generator *)

Lemma html_file_encoded :
  utf8_encode (translate_newlines CreateVrPage.html) = Some CreateVrPage.html_file.
Proof. vm_compute. reflexivity. Qed.

Lemma html_read_back :
  utf8_decode CreateVrPage.html_file = Some (translate_newlines CreateVrPage.html)
  /\ universal_newlines (translate_newlines CreateVrPage.html) = CreateVrPage.html.
Proof.
  split; [apply utf8_round_trip, html_file_encoded|].
  vm_compute. reflexivity.
Qed.

Lemma page_path_not_parent q :
  q `prefix_of` dirname CreateVrPage.path -> q <> CreateVrPage.path.
Proof.
  intros [k Hk] ->. apply (f_equal length) in Hk.
  rewrite length_app in Hk. vm_compute in Hk. lia.
Qed.

(** C7 (the Page Generator): whenever the run ends without an exception
    the parent directory is a directory, the file holds the encoded
    template whatever was at the path before, reading the file back in
    text mode gives the template, and the confirmation is printed; and
    the run does end without an exception when no prefix of the parent
    directory is a regular file and the path itself is not a directory. *)
Theorem C7_page_generator_round_trip :
  forall w,
    (forall w',
       CreateVrPage.main w = (Ok tt, w') ->
       isdir (files w') (dirname CreateVrPage.path) = true
       /\ files w' !! CreateVrPage.path = Some (File CreateVrPage.html_file)
       /\ read_text CreateVrPage.path w' = (Ok CreateVrPage.html, w')
       /\ stdout w'
          = stdout w ++ ["Created C:\Users\Redacted\Documents\latticeveil.github.io\vr\index.html"%string])
    /\ ((forall q data, q `prefix_of` dirname CreateVrPage.path ->
                        files w !! q <> Some (File data)) ->
        files w !! CreateVrPage.path <> Some Dir ->
        exists w', CreateVrPage.main w = (Ok tt, w')).
Proof.
  intros w.
  destruct (makedirs_rev_spec (rev (dirname CreateVrPage.path)) w)
    as (r1 & w1 & Hmk & Hout1 & Hg1 & Hdir1 & Hsucc1).
  rewrite rev_involutive in Hg1, Hdir1, Hsucc1.
  assert (dirname CreateVrPage.path <> CreateVrPage.path) as Hne by done.
  assert (CreateVrPage.main w =
          match r1 with
          | Raise e => (Raise e, w1)
          | Ok _ =>
              match files w1 !! CreateVrPage.path with
              | Some Dir => (Raise IsADirectoryError, w1)
              | _ =>
                  (Ok tt,
                   World (<[CreateVrPage.path := File CreateVrPage.html_file]> (files w1))
                         (stdout w ++ ["Created C:\Users\Redacted\Documents\latticeveil.github.io\vr\index.html"%string]))
              end
          end) as Hmain.
  { unfold CreateVrPage.main, makedirs. destruct r1 as [[]|e].
    - erewrite bind_ok; [|exact Hmk].
      specialize (Hdir1 eq_refl).
      unfold write_text.
      destruct (files w1 !! CreateVrPage.path) as [[|old]|] eqn:Hp.
      + erewrite bind_raise; [done|].
        erewrite bind_raise; [done|by rewrite open_truncate_spec, Hp].
      + erewrite bind_ok with (x := tt)
          (w' := World (<[CreateVrPage.path := File CreateVrPage.html_file]> (files w1))
                       (stdout w1)).
        * rewrite <- Hout1. done.
        * erewrite bind_ok; [|by rewrite open_truncate_spec, Hp].
          rewrite html_file_encoded. unfold set_node. cbn [files stdout].
          by rewrite insert_insert_eq.
      + erewrite bind_ok with (x := tt)
          (w' := World (<[CreateVrPage.path := File CreateVrPage.html_file]> (files w1))
                       (stdout w1)).
        * rewrite <- Hout1. done.
        * erewrite bind_ok; [|by rewrite open_truncate_spec, Hp, Hdir1].
          rewrite html_file_encoded. unfold set_node. cbn [files stdout].
          by rewrite insert_insert_eq.
    - erewrite bind_raise; [done|exact Hmk]. }
  split.
  - intros w' Hok. rewrite Hmain in Hok.
    destruct r1 as [[]|e]; [|done]. specialize (Hdir1 eq_refl).
    assert (w' = World (<[CreateVrPage.path := File CreateVrPage.html_file]> (files w1))
                       (stdout w ++ ["Created C:\Users\Redacted\Documents\latticeveil.github.io\vr\index.html"%string]))
      as ->.
    { destruct (files w1 !! CreateVrPage.path) as [[|old]|]; congruence. }
    cbn [files stdout]. split; [|split; [|split]].
    + rewrite isdir_lookup in * by done. by rewrite lookup_insert_ne.
    + apply lookup_insert_eq.
    + rewrite read_text_spec. cbn [files]. rewrite lookup_insert_eq.
      destruct html_read_back as [-> ->]. done.
    + done.
  - intros Hfree Hnodir. rewrite Hmain, (Hsucc1 Hfree).
    destruct (Hg1 CreateVrPage.path) as [Heq|(Hq & _ & _)].
    + rewrite Heq. destruct (files w !! CreateVrPage.path) as [[|old]|]; eauto. done.
    + by apply page_path_not_parent in Hq.
Qed.

Lemma C7_page_generator_round_trip_witness :
  exists w', CreateVrPage.main (World ∅ []) = (Ok tt, w').
Proof.
  apply (proj2 (C7_page_generator_round_trip (World ∅ []))).
  - intros q data _. cbn [files]. by rewrite lookup_empty.
  - cbn [files]. by rewrite lookup_empty.
Defined.

(** ** The Content Scrubber: what its output is made of *)

Lemma replace_Forall_any {A} `{EqDecision A} (P : A -> Prop) (old new s : list A) :
  Forall P new -> Forall P s -> Forall P (replace old new s).
Proof.
  intros Hnew Hs. destruct old as [|o old].
  - unfold replace. apply Forall_app. split; [done|].
    induction Hs as [|c s Hc _ IH]; simpl; [constructor|].
    constructor; [done|]. apply Forall_app. by split.
  - by apply replace_Forall.
Qed.

Lemma foldl_replace_Forall (P : N -> Prop) (table : list (str * str)) s :
  Forall (fun bg => Forall P bg.2) table -> Forall P s ->
  Forall P (foldl (fun content bg => replace bg.1 bg.2 content) s table).
Proof.
  intros Ht. revert s. induction Ht as [|bg table Hbg _ IH]; intros s Hs; [done|].
  simpl. apply IH. by apply replace_Forall_any.
Qed.

Lemma foldl_re_sub_Forall (P : N -> Prop) (table : list (regex * str)) s :
  Forall (fun pr => Forall P pr.2) table -> Forall P s ->
  Forall P (foldl (fun content pr => re_sub pr.1 pr.2 content) s table).
Proof.
  intros Ht. revert s. induction Ht as [|pr table Hpr _ IH]; intros s Hs; [done|].
  simpl. apply IH. by apply re_sub_Forall.
Qed.

Lemma forallb_forallb_Forall {X} (f : N -> bool) (g : X -> str) (l : list X) :
  forallb (fun x => forallb f (g x)) l = true ->
  Forall (fun x => Forall (fun c => f c = true) (g x)) l.
Proof.
  intros Hl. apply forallb_Forall in Hl. eapply Forall_impl; [exact Hl|].
  intros x Hx. by apply forallb_Forall.
Qed.

(** Any property of characters that holds of Latin-1 and of the
    replacement texts of the script holds of everything it writes. *)
Lemma polish_Forall (f : N -> bool) data :
  (forall c, (c < 256)%N -> f c = true) ->
  forallb (fun pr => forallb f pr.2) FinalPolish.header_replacements = true ->
  forallb (fun bg => forallb f bg.2) FinalPolish.scrub_map = true ->
  Forall (fun c => f c = true) (FinalPolish.polish data).
Proof.
  intros Hlatin Hh Hs. unfold FinalPolish.polish.
  assert (Forall (fun c => f c = true) (latin1_decode data)) as H0.
  { unfold latin1_decode. apply Forall_map, Forall_forall. intros b _. apply Hlatin.
    pose proof (Byte.to_N_bounded b). lia. }
  assert (forall s, Forall (fun c => f c = true) (str_lit s)) as Hascii.
  { intros s. unfold str_lit. apply Forall_map, Forall_forall. intros b _. apply Hlatin.
    pose proof (Byte.to_N_bounded b). lia. }
  assert (Forall (fun c => f c = true)
            (FinalPolish.normalize_lines (latin1_decode data))) as H1.
  { unfold FinalPolish.normalize_lines. apply re_sub_Forall.
    - repeat constructor; by apply Hlatin.
    - apply replace_Forall_any; [|done]. repeat constructor; by apply Hlatin. }
  assert (Forall (fun c => f c = true)
            (FinalPolish.replace_headers
               (FinalPolish.normalize_lines (latin1_decode data)))) as H2.
  { unfold FinalPolish.replace_headers. apply foldl_re_sub_Forall; [|done].
    by apply (forallb_forallb_Forall f snd). }
  assert (Forall (fun c => f c = true)
            (FinalPolish.scrub
               (FinalPolish.replace_headers
                  (FinalPolish.normalize_lines (latin1_decode data))))) as H3.
  { unfold FinalPolish.scrub. cbv zeta. do 2 (apply re_sub_Forall; [constructor|]).
    apply foldl_replace_Forall; [|done]. by apply (forallb_forallb_Forall f snd). }
  unfold FinalPolish.ensure_js_clean.
  match goal with |- Forall _ (if ?b then _ else _) => destruct b end; cbv zeta;
    unfold FinalPolish.fix_hyphens; cbv zeta;
    repeat (apply replace_Forall_any; [apply Hascii|]); exact H3.
Qed.

Lemma utf8_no_bom s out :
  utf8_encode s = Some out -> Forall (fun c => (c =? BOM)%N = false) s ->
  startswith utf8_bom out = false.
Proof.
  intros He Hs. apply not_true_iff_false. intros [v ->]%startswith_iff.
  apply utf8_round_trip in He. unfold utf8_bom in He.
  change ([xef; xbb; xbf] ++ v) with (xef :: xbb :: xbf :: v) in He.
  cbn [utf8_decode] in He. cbv zeta in He.
  change (Byte.to_N xef) with 239%N in He.
  change (is_continuation xbb) with true in He.
  change (is_continuation xbf) with true in He.
  change (low6 xbb) with 59%N in He. change (low6 xbf) with 63%N in He.
  change ((239 <? 128)%N) with false in He. change ((239 <? 194)%N) with false in He.
  change ((239 <? 224)%N) with false in He. change ((239 <? 240)%N) with true in He.
  cbv iota in He.
  change ((239 - 224) * 4096 + 59 * 64 + 63)%N with BOM in He.
  change (true && true && (2048 <=? BOM)%N && negb (is_surrogate BOM)) with true in He.
  cbv iota in He.
  destruct (utf8_decode v) as [s'|]; [|done]. injection He as <-.
  inversion_clear Hs as [|? ? Hc _]. by rewrite N.eqb_refl in Hc.
Qed.

Lemma polish_encodes data : exists out, utf8_encode (FinalPolish.polish data) = Some out.
Proof.
  apply utf8_encode_total, (polish_Forall encodable).
  - intros c Hc. unfold encodable, is_surrogate. decide_comparisons. done.
  - vm_compute. reflexivity.
  - vm_compute. reflexivity.
Qed.

(** C8 (decode and encode never fail in the Content Scrubber): the
    Latin-1 decoding of any bytes is a text of the same length with one
    character below 256 per byte; the text the scrubber builds from it is
    always accepted by the UTF-8 encoder, the encoded form does not start
    with a byte-order mark, and with the target file present the script
    ends without an exception, having written exactly that encoded
    form. *)
Theorem C8_scrubber_codecs_never_fail :
  forall data,
    length (latin1_decode data) = length data
    /\ Forall (fun c => (c < 256)%N) (latin1_decode data)
    /\ exists out,
         utf8_encode (FinalPolish.polish data) = Some out
         /\ startswith utf8_bom out = false
         /\ forall w,
              files w !! FinalPolish.path = Some (File data) ->
              FinalPolish.main w
              = (Ok tt, World (<[FinalPolish.path := File out]> (files w))
                              (stdout w ++ ["Website fully restored and polished."%string])).
Proof.
  intros data. split; [apply length_map|]. split.
  { unfold latin1_decode. apply Forall_map, Forall_forall. intros b _.
    pose proof (Byte.to_N_bounded b). lia. }
  destruct (polish_encodes data) as [out Hout].
  exists out. split; [exact Hout|]. split.
  - apply (utf8_no_bom _ _ Hout).
    pose proof (polish_Forall (fun c => negb (c =? BOM)%N) data) as Hb.
    eapply Forall_impl; [apply Hb|].
    + intros c Hc. apply negb_true_iff, N.eqb_neq. unfold BOM. lia.
    + vm_compute. reflexivity.
    + vm_compute. reflexivity.
    + intros c Hc. by apply negb_true_iff.
  - intros w Hp. by rewrite final_polish_main_spec, Hp, Hout.
Qed.

Lemma C8_scrubber_codecs_never_fail_witness :
  exists out,
    FinalPolish.main (World {[FinalPolish.path := File [xff; xfe; x80; xc3]]} [])
    = (Ok tt, World (<[FinalPolish.path := File out]>
                       {[FinalPolish.path := File [xff; xfe; x80; xc3]]})
                    ["Website fully restored and polished."%string]).
Proof.
  destruct (C8_scrubber_codecs_never_fail [xff; xfe; x80; xc3]) as (_ & _ & out & _ & _ & H).
  exists out.
  refine (H (World {[FinalPolish.path := File [xff; xfe; x80; xc3]]} []) _).
  cbn [files]. apply lookup_singleton_eq.
Defined.

(** ** The Content Scrubber: line endings and blank lines *)





(** ** The Content Scrubber: headers *)

(** A header that the pattern spells is matched where it starts. *)
Lemma header_matches open title m post :
  FinalPolish.header_here open title m ->
  re_match (FinalPolish.header open title) (m ++ post) <> None.
Proof.
  intros (o & junk & ti & -> & Ho & Hj & Hti).
  unfold re_match, FinalPolish.header. cbn [run]. rewrite run_chars.
  rewrite <- !app_assoc. rewrite (fits_app _ _ _ Ho).
  rewrite <- (spells_length _ _ Ho), drop_app_length.
  fold (run (Cat (Rep false 0 dot) (chars (map pat_ok title))) Some (junk ++ ti ++ post)).
  cbn [run].
  destruct (rep_lazy dot (run (chars (map pat_ok title)) Some) 0 (junk ++ ti ++ post))
    eqn:Hr; [done|].
  exfalso. revert Hr. apply rep_lazy_finds; [done|].
  rewrite run_chars, (fits_app _ _ _ Hti). done.
Qed.





(** *** The steps after the headers find nothing to do

    Every literal and every pattern of the later steps holds the
    character U+0413, which is neither a Latin-1 character nor in any
    replacement text of the header table. *)

Lemma contains_absent_char {A} `{EqDecision A} (x : A) (p s : list A) :
  In x p -> Forall (fun c => c <> x) s -> contains p s = false.
Proof.
  intros Hx Hs. apply not_true_iff_false. intros (u & v & ->)%contains_iff.
  rewrite !Forall_app in Hs. destruct Hs as (_ & Hp & _).
  rewrite Forall_forall in Hp. apply (Hp x); [|done].
  by apply list_elem_of_In.
Qed.

Lemma existsb_eqb_In x (l : str) : existsb (N.eqb x) l = true -> In x l.
Proof. intros (y & Hy & ->%N.eqb_eq)%existsb_exists. done. Qed.

Lemma re_match_lit_head x l r2 s :
  head s <> Some x -> re_match (Cat (lit (x :: l)) r2) s = None.
Proof.
  intros Hs. unfold re_match, lit. cbn [run map chars foldr].
  destruct s as [|c s]; [done|].
  destruct (N.eqb_spec x c) as [->|_]; [done|done].
Qed.

Lemma re_sub_absent_head r repl x s :
  (forall s', head s' <> Some x -> re_match r s' = None) ->
  Forall (fun c => c <> x) s -> re_sub r repl s = s.
Proof.
  intros Hr. induction 1 as [|c s Hc _ IH]; rewrite re_sub_unfold.
  - by rewrite Hr.
  - rewrite Hr, IH; [done|]. simpl. congruence.
Qed.

Lemma foldl_replace_absent (table : list (str * str)) X :
  Forall (fun bg => contains bg.1 X = false) table ->
  foldl (fun content bg => replace bg.1 bg.2 content) X table = X.
Proof.
  induction 1 as [|bg table Hbg _ IH]; [done|].
  simpl. by rewrite replace_absent.
Qed.

Lemma later_steps_identity X :
  Forall (fun c => c <> 0x413%N) X ->
  FinalPolish.ensure_js_clean (FinalPolish.fix_hyphens (FinalPolish.scrub X)) = X.
Proof.
  intros HX.
  assert (FinalPolish.scrub X = X) as ->.
  { unfold FinalPolish.scrub. cbv zeta.
    rewrite foldl_replace_absent.
    - rewrite (re_sub_absent_head FinalPolish.junk_run [] 0x413%N X); [|intros s' Hs'; by apply re_match_lit_head|done].
      apply (re_sub_absent_head FinalPolish.junk_word [] 0x413%N X); [|done].
      intros s' Hs'. by apply re_match_lit_head.
    - assert (Forall (fun bg : str * str => In 0x413%N bg.1) FinalPolish.scrub_map) as Hin.
      { eapply Forall_impl;
          [apply (forallb_Forall (fun bg : str * str => existsb (N.eqb 0x413%N) bg.1));
           vm_compute; reflexivity|].
        intros bg Hbg. by apply existsb_eqb_In. }
      eapply Forall_impl; [exact Hin|]. intros bg Hbg. cbv beta.
      by apply (contains_absent_char 0x413%N). }
  assert (FinalPolish.fix_hyphens X = X) as ->.
  { assert (forall p, existsb (N.eqb 0x413%N) p = true -> contains p X = false) as Hab.
    { intros p Hp. apply (contains_absent_char 0x413%N); [by apply existsb_eqb_In|done]. }
    unfold FinalPolish.fix_hyphens. cbv zeta.
    rewrite (replace_absent _ _ X) by (apply Hab; vm_compute; reflexivity).
    rewrite (replace_absent _ _ X) by (apply Hab; vm_compute; reflexivity).
    rewrite (replace_absent _ _ X) by (apply Hab; vm_compute; reflexivity).
    done. }
  unfold FinalPolish.ensure_js_clean. by destruct (_ <? _)%nat.
Qed.

Lemma headers_stage_Forall (f : N -> bool) data :
  (forall c, (c < 256)%N -> f c = true) ->
  forallb (fun pr => forallb f pr.2) FinalPolish.header_replacements = true ->
  Forall (fun c => f c = true)
    (FinalPolish.replace_headers (FinalPolish.normalize_lines (latin1_decode data))).
Proof.
  intros Hlatin Hh.
  unfold FinalPolish.replace_headers. apply foldl_re_sub_Forall.
  { by apply (forallb_forallb_Forall f snd). }
  unfold FinalPolish.normalize_lines. apply re_sub_Forall.
  - repeat constructor; by apply Hlatin.
  - apply replace_Forall_any; [repeat constructor; by apply Hlatin|].
    unfold latin1_decode. apply Forall_map, Forall_forall. intros b _. apply Hlatin.
    pose proof (Byte.to_N_bounded b). lia.
Qed.

(** In this program the header pass is the last step that can change the
    text. *)
Lemma polish_is_headers data :
  FinalPolish.polish data
  = FinalPolish.replace_headers (FinalPolish.normalize_lines (latin1_decode data)).
Proof.
  unfold FinalPolish.polish. cbv zeta. apply later_steps_identity.
  pose proof (headers_stage_Forall (fun c => negb (c =? 0x413)%N) data) as H.
  eapply Forall_impl; [apply H|].
  - intros c Hc. apply negb_true_iff, N.eqb_neq. lia.
  - vm_compute. reflexivity.
  - intros c Hc. by apply N.eqb_neq, negb_true_iff.
Qed.

(** *** A header on one line survives the first step *)








Lemma spells_not_in x (cl : list pat_char) (s : str) :
  forallb (fun y => negb (pat_ok y x)) cl = true ->
  spells (map pat_ok cl) s = true -> ~ In x s.
Proof.
  unfold spells. intros Hcl [Hlen%Nat.eqb_eq Hfit]%andb_true_iff.
  rewrite length_map in Hlen. revert s Hcl Hlen Hfit.
  induction cl as [|y cl IH]; intros [|c s] Hcl Hlen Hfit; simpl in *;
    try done; try tauto.
  apply andb_true_iff in Hcl as [Hy%negb_true_iff Hcl].
  apply andb_true_iff in Hfit as [Hc Hfit].
  intros [->|Hin]; [congruence|]. apply (IH s Hcl); [lia|done|done].
Qed.

Lemma spells_last x (cl : list pat_char) (s : str) y :
  last cl = Some y -> pat_ok y x = false ->
  spells (map pat_ok cl) s = true -> s <> [] /\ last s <> Some x.
Proof.
  unfold spells. intros Hlast Hy [Hlen%Nat.eqb_eq Hfit]%andb_true_iff.
  rewrite length_map in Hlen. revert s Hlast Hlen Hfit.
  induction cl as [|z cl IH]; intros [|c s] Hlast Hlen Hfit; simpl in *; try done.
  split; [done|]. apply andb_true_iff in Hfit as [Hc Hfit].
  destruct cl as [|z' cl].
  - destruct s; [|done]. simpl. injection Hlast as ->. congruence.
  - destruct (IH s Hlast) as [Hne Hl]; [lia|done|].
    destruct s as [|d s]; [done|]. exact Hl.
Qed.

(** The header a row spells has no newline and does not end with a
    carriage return. *)
Lemma header_here_one_line row m :
  FinalPolish.row_on_one_line row = true ->
  FinalPolish.header_here row.1.1 row.1.2 m ->
  ~ In LF m /\ last m <> Some CR.
Proof.
  unfold FinalPolish.row_on_one_line.
  intros [[Ho Ht]%andb_true_iff Hl]%andb_true_iff (o & junk & ti & -> & Hso & Hj & Hsti).
  destruct (last row.1.2) as [y|] eqn:Hlast; [|done].
  apply negb_true_iff in Hl.
  destruct (spells_last CR _ _ _ Hlast Hl Hsti) as [Hne Hti].
  split.
  - intros [Hin|[Hin|Hin]%in_app_or]%in_app_or.
    + by apply (spells_not_in LF _ _ Ho Hso).
    + apply forallb_Forall in Hj. rewrite Forall_forall in Hj.
      apply list_elem_of_In, Hj in Hin. by vm_compute in Hin.
    + by apply (spells_not_in LF _ _ Ht Hsti).
  - rewrite !last_app. destruct (last ti) eqn:Hti'; [done|].
    by apply last_None in Hti'.
Qed.



Lemma header_rows_on_one_line :
  Forall (fun row => FinalPolish.row_on_one_line row = true) FinalPolish.header_rows.
Proof. apply forallb_Forall. vm_compute. reflexivity. Qed.

(** *** What a header pattern matches *)

Lemma re_sub_no_match r repl (s : str) :
  (forall k, re_match r (drop k s) = None) -> re_sub r repl s = s.
Proof.
  induction s as [|c s IH]; intros Hk; pose proof (Hk 0) as H0;
    rewrite drop_0 in H0; rewrite re_sub_unfold, H0.
  - done.
  - f_equal. apply IH. intros k. apply (Hk (S k)).
Qed.

Lemma rep_lazy_inv ok k lo (t rest : str) :
  rep_lazy ok k lo t = Some rest ->
  exists junk t', t = junk ++ t' /\ forallb ok junk = true /\ k t' = Some rest.
Proof.
  revert lo. induction t as [|c t IH]; intros lo.
  - destruct lo as [|lo]; [|done]. cbn [rep_lazy].
    destruct (k []) as [r|] eqn:Hk; [|done]. intros [= <-]. by exists [], [].
  - assert (rep_lazy ok k (pred lo) t = Some rest -> ok c = true ->
            exists junk t', c :: t = junk ++ t' /\ forallb ok junk = true
                            /\ k t' = Some rest) as Hmore.
    { intros (junk & t' & -> & Hj & Hk)%IH Hc. exists (c :: junk), t'.
      split; [done|]. split; [|done]. cbn [forallb]. by rewrite Hc. }
    cbn [rep_lazy]. destruct lo as [|lo].
    + destruct (k (c :: t)) as [r|] eqn:Hk.
      * intros [= <-]. by exists [], (c :: t).
      * destruct (ok c) eqn:Hc; [|done]. intros H. by apply Hmore.
    + destruct (ok c) eqn:Hc; [|done]. intros H. by apply Hmore.
Qed.

Lemma fits_spells classes (s : str) :
  fits classes s = true ->
  exists o rest, s = o ++ rest /\ spells classes o = true.
Proof.
  revert s. induction classes as [|ok classes IH]; intros s Hf.
  - by exists [], s.
  - destruct s as [|c s]; [done|]. cbn [fits] in Hf.
    apply andb_true_iff in Hf as [Hc (o & rest & -> & Ho)%IH].
    exists (c :: o), rest. split; [done|].
    unfold spells in *. apply andb_true_iff in Ho as [Hlen Hfit].
    cbn [length fits]. by rewrite Hc, Hfit, andb_true_r.
Qed.

(** A match of a header pattern is an opening tag, characters other than
    a newline, and the title with its closing tag. *)
Lemma header_match_inv open title (s : str) n :
  re_match (FinalPolish.header open title) s = Some n ->
  exists m rest, s = m ++ rest /\ n = length m /\ FinalPolish.header_here open title m.
Proof.
  unfold re_match, FinalPolish.header. cbn [run]. rewrite run_chars.
  destruct (fits (map pat_ok open) s) eqn:Hf; [|done].
  apply fits_spells in Hf as (o & s1 & -> & Ho).
  rewrite <- (spells_length _ _ Ho), drop_app_length.
  destruct (rep_lazy dot (run (chars (map pat_ok title)) Some) 0 s1) as [rest|] eqn:Hl;
    [|done].
  apply rep_lazy_inv in Hl as (junk & s2 & -> & Hj & Hk).
  rewrite run_chars in Hk.
  destruct (fits (map pat_ok title) s2) eqn:Hf2; [|done].
  apply fits_spells in Hf2 as (ti & s3 & -> & Hti).
  rewrite <- (spells_length _ _ Hti), drop_app_length in Hk. injection Hk as <-.
  cbn [fmap option_fmap option_map]. intros [= <-].
  exists (o ++ junk ++ ti), s3. split; [by rewrite <- !app_assoc|].
  split; [rewrite !length_app; lia|].
  by exists o, junk, ti.
Qed.

(** *** A pass over a text that does not hold the title *)










(** *** The header pass when the title of one row only is in the text *)




(** *** The header pass works line by line *)








(** *** The lines that the first step keeps *)









(** *** A header on a line with no other title *)









(** * Part IV: further properties of the scripts

    What the scripts keep, what they never do and how their steps
    compose, beyond the properties of Part III. *)

(** ** Insertions: what they keep and which markers they leave *)


Section InsertOnly.
Context {A : Type} `{EqDecision A}.
Implicit Types (s t old new m : list A).

Lemma replaced_sublist old new s t :
  old `sublist_of` new -> replaced old new s t -> s `sublist_of` t.
Proof.
  intros Hon. induction 1 as [|c s t _ _ IH|s t _ IH].
  - done.
  - by apply sublist_skip.
  - by apply sublist_app.
Qed.

Lemma replacement_sublist (i : insertion A) : anchor i `sublist_of` replacement i.
Proof.
  unfold replacement. destruct (before i).
  - apply sublist_inserts_l. done.
  - apply sublist_inserts_r. done.
Qed.

Lemma apply_insertion_sublist (i : insertion A) s :
  anchor i <> [] -> s `sublist_of` apply_insertion i s.
Proof.
  intros Ha. unfold apply_insertion. destruct (negb _); [|done].
  eapply replaced_sublist; [apply replacement_sublist|by apply replace_replaced].
Qed.

Lemma apply_all_sublist (l : list (insertion A)) s :
  Forall (fun j => anchor j <> []) l -> s `sublist_of` apply_all l s.
Proof.
  unfold apply_all. intros Hl. revert s.
  induction Hl as [|i l Hi _ IH]; intros s; [done|].
  cbn [foldl]. etrans; [by apply apply_insertion_sublist|apply IH].
Qed.

(** ** Which markers a run leaves in the document *)

(** A marker that is in the text stays through insertions that do not cut
    it; its own insertion is skipped. *)
Lemma apply_all_marker_stays (i : insertion A) (l : list (insertion A)) s :
  Forall (fun j => anchor j <> []) l ->
  Forall (fun j => j = i \/ keeps j (marker i) = true) l ->
  contains (marker i) s = true -> contains (marker i) (apply_all l s) = true.
Proof.
  unfold apply_all. intros Hne Hl. revert s.
  induction Hl as [|j l Hj _ IH]; intros s Hm; [done|].
  apply Forall_cons in Hne as [Hj0 Hne]. cbn [foldl]. apply IH; [done|].
  destruct Hj as [->|Hk].
  - by rewrite apply_insertion_marker_present.
  - by apply apply_insertion_keeps.
Qed.

(** With the anchor or the marker in the text, the marker is there once
    the insertion has had its turn. *)
Lemma apply_all_marks (i : insertion A) (l : list (insertion A)) s :
  Forall (fun j => anchor j <> []) l ->
  contains (marker i) (fragment i) = true ->
  Forall (fun j => j = i \/ (keeps j (marker i) = true /\ keeps j (anchor i) = true)) l ->
  i ∈ l ->
  contains (marker i) s = true \/ contains (anchor i) s = true ->
  contains (marker i) (apply_all l s) = true.
Proof.
  intros Hne Hfrag Hl. revert s.
  induction Hl as [|j l Hj Hl IH]; intros s Hin Hs.
  { by apply elem_of_nil in Hin. }
  apply Forall_cons in Hne as [Hj0 Hne].
  change (apply_all (j :: l) s) with (apply_all l (apply_insertion j s)).
  assert (Forall (fun j => j = i \/ keeps j (marker i) = true) l) as Hl'.
  { eapply Forall_impl; [exact Hl|]. intros k [->|[Hk _]]; auto. }
  destruct Hj as [->|[Hkm Hka]].
  - apply apply_all_marker_stays; [done|done|].
    destruct (contains (marker i) s) eqn:Hm.
    + by rewrite apply_insertion_marker_present.
    + destruct Hs as [Hs|Hs]; [done|].
      eapply contains_trans; [|by apply apply_insertion_inserts].
      by apply contains_fragment_replacement.
  - destruct (contains (marker i) s) eqn:Hm.
    + assert (contains (marker i) (apply_insertion j s) = true) as Hm'
        by by apply apply_insertion_keeps.
      apply apply_all_marker_stays; done.
    + destruct Hs as [Hs|Hs]; [done|].
      apply elem_of_cons in Hin as [->|Hin].
      * apply apply_all_marker_stays; [done|done|].
        eapply contains_trans; [|by apply apply_insertion_inserts].
        by apply contains_fragment_replacement.
      * apply IH; [done|done|]. right. by apply apply_insertion_keeps.
Qed.

(** With neither the anchor nor the marker in the text, no insertion of
    the list brings the marker in. *)
Lemma apply_all_no_marker (i : insertion A) (l : list (insertion A)) s :
  Forall (fun j => anchor j <> []) l ->
  Forall (fun j => j = i \/ (cannot_create (marker i) (fragment j) = true
                             /\ cannot_create (anchor i) (fragment j) = true)) l ->
  contains (marker i) s = false -> contains (anchor i) s = false ->
  contains (marker i) (apply_all l s) = false.
Proof.
  unfold apply_all. intros Hne Hl. revert s.
  induction Hl as [|j l Hj _ IH]; intros s Hm Ha; [done|].
  apply Forall_cons in Hne as [Hj0 Hne]. cbn [foldl].
  destruct Hj as [->|[Hcm Hca]].
  - rewrite apply_insertion_anchor_absent by done. by apply IH.
  - apply IH; [done| |]; by apply apply_insertion_cannot_create.
Qed.

End InsertOnly.

(** ** Insertions of the site injector *)

Lemma apply_all_marker_iff {A} `{EqDecision A} (i : insertion A) (l : list (insertion A))
    (s : list A) :
  Forall (fun j => anchor j <> []) l ->
  contains (marker i) (fragment i) = true ->
  i ∈ l ->
  Forall (fun j => j = i \/
                   keeps j (marker i) && keeps j (anchor i)
                   && cannot_create (marker i) (fragment j)
                   && cannot_create (anchor i) (fragment j) = true) l ->
  contains (marker i) (apply_all l s) = true
  <-> contains (marker i) s = true \/ contains (anchor i) s = true.
Proof.
  intros Hne Hfrag Hin Hl. split.
  - intros Hout.
    destruct (contains (marker i) s) eqn:Hm; [by left|].
    destruct (contains (anchor i) s) eqn:Ha; [by right|].
    rewrite apply_all_no_marker in Hout; [done|done| |done|done].
    eapply Forall_impl; [exact Hl|]. intros j [->|Hj]; [by left|right].
    apply andb_true_iff in Hj as [[_ ?]%andb_true_iff ?]. done.
  - apply apply_all_marks; [done|done| |done].
    eapply Forall_impl; [exact Hl|]. intros j [->|Hj]; [by left|right].
    apply andb_true_iff in Hj as [[[? ?]%andb_true_iff _]%andb_true_iff _]. done.
Qed.

Ltac check_each :=
  repeat first
    [ apply Forall_nil_2
    | apply Forall_cons_2; [first [left; reflexivity | right; vm_compute; reflexivity]|] ].

Lemma site_anchors_nonempty :
  Forall (fun j : insertion byte => anchor j <> []) UpdateWebsiteVr.insertions.
Proof. apply compatible_anchors. vm_compute. reflexivity. Qed.

(** ** More on the codecs *)

Lemma byte_of_N_to_N b : byte_of_N (Byte.to_N b) = b.
Proof. unfold byte_of_N. by rewrite Byte.of_to_N. Qed.

Lemma byte_of_N_inj x c : (x < 256)%N -> (c < 256)%N -> byte_of_N x = byte_of_N c -> x = c.
Proof.
  intros Hx Hc Heq. apply (f_equal Byte.to_N) in Heq.
  by rewrite !to_N_byte_of_N in Heq.
Qed.

(** The UTF-8 form of a code point: one byte below 0x80 that is the code
    point, or bytes that are all 0x80 or above. *)
Lemma utf8_encode_char_bytes c e :
  utf8_encode_char c = Some e ->
  ((c < 0x80)%N /\ e = [byte_of_N c])
  \/ ((0x80 <= c)%N /\ e <> [] /\ Forall (fun b => (0x80 <= Byte.to_N b)%N) e).
Proof.
  unfold utf8_encode_char.
  destruct (N.ltb_spec c 0x80); [intros [= <-]; by left|].
  right. split; [done|]. revert H0.
  destruct (N.ltb_spec c 0x800).
  { intros [= <-]. split; [done|]. repeat constructor; rewrite to_N_byte_of_N; lia. }
  destruct (N.ltb_spec c 0x10000).
  { destruct (is_surrogate c); [done|]. intros [= <-]. split; [done|].
    repeat constructor; rewrite to_N_byte_of_N; lia. }
  destruct (N.ltb_spec c 0x110000); [|done].
  intros [= <-]. split; [done|]. repeat constructor; rewrite to_N_byte_of_N; lia.
Qed.

Lemma utf8_encode_bmp s out :
  utf8_encode s = Some out -> Forall (fun c => (c < 0x10000)%N) s ->
  Forall (fun b => (Byte.to_N b < 0xF0)%N) out.
Proof.
  intros He Hs. revert out He. induction Hs as [|c s Hc _ IH]; intros out.
  { by intros [= <-]. }
  cbn [utf8_encode].
  destruct (utf8_encode_char c) as [e|] eqn:Hch; [|done].
  destruct (utf8_encode s) as [es|]; [|done]. intros [= <-].
  apply Forall_app. split; [|by apply IH].
  revert Hch. unfold utf8_encode_char.
  destruct (N.ltb_spec c 0x80).
  { intros [= <-]. repeat constructor; rewrite to_N_byte_of_N; lia. }
  destruct (N.ltb_spec c 0x800).
  { intros [= <-]. repeat constructor; rewrite to_N_byte_of_N; lia. }
  destruct (N.ltb_spec c 0x10000); [|lia].
  destruct (is_surrogate c); [done|]. intros [= <-].
  repeat constructor; rewrite to_N_byte_of_N; lia.
Qed.

(** Bytes read as Latin-1 and written as UTF-8: a byte below 0x80 is
    written as it is, any other byte as two bytes. *)
Lemma latin1_utf8 data :
  exists out,
    utf8_encode (latin1_decode data) = Some out
    /\ length out
       = length data + length (List.filter (fun b => (0x80 <=? Byte.to_N b)%N) data)
    /\ (Forall (fun b => (Byte.to_N b < 0x80)%N) data -> out = data).
Proof.
  induction data as [|b data (out & He & Hl & Ha)]; [by exists []|].
  cbn [latin1_decode map utf8_encode]. fold (latin1_decode data). rewrite He.
  unfold utf8_encode_char. pose proof (Byte.to_N_bounded b) as Hb.
  cbn [List.filter].
  destruct (N.ltb_spec (Byte.to_N b) 0x80) as [Hlt|Hge].
  - exists (b :: out). rewrite byte_of_N_to_N. split; [done|].
    destruct (N.leb_spec 0x80 (Byte.to_N b)); [lia|].
    split; [cbn [length]; lia|].
    intros [_ Hd]%Forall_cons. by rewrite Ha.
  - destruct (N.ltb_spec (Byte.to_N b) 0x800); [|lia].
    eexists. split; [done|].
    destruct (N.leb_spec 0x80 (Byte.to_N b)); [|lia].
    split; [cbn [length app]; lia|].
    intros [Hd _]%Forall_cons. lia.
Qed.

Lemma utf8_encode_startswith_ascii (p s : str) out :
  Forall (fun c => (c < 0x80)%N) p -> utf8_encode s = Some out ->
  startswith (map byte_of_N p) out = startswith p s.
Proof.
  intros Hp. revert s out. induction Hp as [|x p Hx _ IH]; intros s out He; [done|].
  destruct s as [|c s].
  { injection He as <-. done. }
  cbn [utf8_encode] in He.
  destruct (utf8_encode_char c) as [e|] eqn:Hch; [|done].
  destruct (utf8_encode s) as [es|] eqn:Hes; [|done]. injection He as <-.
  cbn [map startswith].
  apply utf8_encode_char_bytes in Hch as [[Hc ->]|(Hc & Hne & He)].
  - cbn [app].
    destruct (decide (x = c)) as [->|Hxc].
    + rewrite decide_True by done. by apply IH.
    + rewrite decide_False; [done|]. intros Heq. apply Hxc.
      apply byte_of_N_inj; [lia|lia|done].
  - destruct e as [|b e]; [done|]. cbn [app].
    apply Forall_cons in He as [Hb _].
    rewrite (decide_False (P := x = c)) by lia.
    rewrite decide_False; [done|]. intros <-. rewrite to_N_byte_of_N in Hb; lia.
Qed.

Lemma contains_skip_high (p : str) (h rest : bytes) :
  p <> [] -> Forall (fun c => (c < 0x80)%N) p ->
  Forall (fun b => (0x80 <= Byte.to_N b)%N) h ->
  contains (map byte_of_N p) (h ++ rest) = contains (map byte_of_N p) rest.
Proof.
  intros Hne Hp. induction 1 as [|b h Hb _ IH]; [done|].
  cbn [app]. rewrite contains_cons, IH.
  destruct p as [|x p]; [done|]. apply Forall_cons in Hp as [Hx _].
  cbn [map startswith]. rewrite decide_False; [done|].
  intros <-. rewrite to_N_byte_of_N in Hb; lia.
Qed.

(** A non-empty ASCII text is in the encoded form exactly when it is in
    the text. *)
Lemma utf8_encode_contains_ascii (p s : str) out :
  p <> [] -> Forall (fun c => (c < 0x80)%N) p -> utf8_encode s = Some out ->
  contains (map byte_of_N p) out = contains p s.
Proof.
  intros Hne Hp. revert out. induction s as [|c s IH]; intros out He.
  { injection He as <-. by destruct p. }
  pose proof (utf8_encode_startswith_ascii p (c :: s) out Hp He) as Hsw.
  cbn [utf8_encode] in He.
  destruct (utf8_encode_char c) as [e|] eqn:Hch; [|done].
  destruct (utf8_encode s) as [es|] eqn:Hes; [|done]. injection He as <-.
  rewrite (contains_cons p c s), <- Hsw, <- (IH es eq_refl).
  apply utf8_encode_char_bytes in Hch as [[Hc ->]|(Hc & Hne' & He)].
  - done.
  - rewrite contains_skip_high by done.
    destruct e as [|b e]; [done|]. apply Forall_cons in He as [Hb _].
    destruct p as [|x p]; [done|]. apply Forall_cons in Hp as [Hx _].
    cbn [app map startswith]. rewrite decide_False; [done|].
    intros <-. rewrite to_N_byte_of_N in Hb; lia.
Qed.

(** ** More on the line endings and the patterns of the scrubber *)

Lemma filter_visible_newline (c : N) (rest : str) :
  c = CR \/ c = LF ->
  List.filter (fun c => negb (c =? CR)%N && negb (c =? LF)%N) (c :: rest)
  = List.filter (fun c => negb (c =? CR)%N && negb (c =? LF)%N) rest.
Proof. by intros [->| ->]. Qed.

Lemma replaced_crlf_visible (s t : str) :
  replaced [CR; LF] [LF] s t ->
  List.filter (fun c => negb (c =? CR)%N && negb (c =? LF)%N) t
  = List.filter (fun c => negb (c =? CR)%N && negb (c =? LF)%N) s
  /\ length t <= length s.
Proof.
  induction 1 as [|c s t _ _ [IH1 IH2]|s t _ [IH1 IH2]].
  - done.
  - cbn [List.filter length]. rewrite IH1. split; [done|lia].
  - cbn [app]. rewrite !filter_visible_newline by auto.
    split; [done|]. cbn [length]. lia.
Qed.

Lemma take_run_newlines (s : str) :
  take (run_length (N.eqb LF) s) s = repeat LF (run_length (N.eqb LF) s).
Proof.
  induction s as [|c s IH]; [done|]. rewrite run_length_cons.
  destruct (N.eqb_spec LF c) as [<-|_]; [|done].
  cbn [take repeat]. by rewrite IH.
Qed.

Lemma filter_visible_newlines n (rest : str) :
  List.filter (fun c => negb (c =? CR)%N && negb (c =? LF)%N) (repeat LF n ++ rest)
  = List.filter (fun c => negb (c =? CR)%N && negb (c =? LF)%N) rest.
Proof.
  induction n as [|n IH]; [done|]. cbn [repeat app].
  rewrite filter_visible_newline by auto. exact IH.
Qed.

Lemma collapse_visible (s : str) :
  List.filter (fun c => negb (c =? CR)%N && negb (c =? LF)%N)
    (re_sub FinalPolish.blank_lines [LF; LF] s)
  = List.filter (fun c => negb (c =? CR)%N && negb (c =? LF)%N) s
  /\ length (re_sub FinalPolish.blank_lines [LF; LF] s) <= length s.
Proof.
  remember (length s) as len eqn:Hlen. revert s Hlen.
  induction len as [len IH] using lt_wf_ind. intros s ->.
  rewrite re_sub_unfold, re_match_blank_lines.
  destruct (3 <=? run_length (N.eqb LF) s)%nat eqn:H3.
  - apply Nat.leb_le in H3.
    destruct (run_length (N.eqb LF) s) as [|n] eqn:Hrl; [lia|].
    pose proof (run_length_le (N.eqb LF) s) as Hle.
    destruct (IH (length (drop (S n) s))) with (s := drop (S n) s) as [IH1 IH2];
      [rewrite length_drop; lia|done|].
    cbn [app]. rewrite !filter_visible_newline by auto. rewrite IH1.
    split.
    + pose proof (take_run_newlines s) as Ht. rewrite Hrl in Ht.
      rewrite <- (take_drop (S n) s) at 2. by rewrite Ht, filter_visible_newlines.
    + cbn [length]. rewrite length_drop in IH2. lia.
  - destruct s as [|c s]; [done|].
    destruct (IH (length s)) with (s := s) as [IH1 IH2]; [simpl; lia|done|].
    cbn [List.filter length]. rewrite IH1. split; [done|lia].
Qed.

Lemma no_triple_cons c (t : str) :
  contains [LF; LF; LF] (c :: t)
  = (3 <=? run_length (N.eqb LF) (c :: t))%nat || contains [LF; LF; LF] t.
Proof. rewrite contains_cons. f_equal. apply (startswith_newlines 3). Qed.

Lemma no_triple_app (x t : str) :
  Forall (fun c => c <> LF) x ->
  contains [LF; LF; LF] (x ++ t) = contains [LF; LF; LF] t.
Proof.
  induction 1 as [|c x Hc _ IH]; [done|]. cbn [app].
  rewrite no_triple_cons, run_length_cons.
  destruct (N.eqb_spec LF c) as [<-|_]; [done|]. exact IH.
Qed.

Lemma contains_drop_false {A} `{EqDecision A} (p s : list A) k :
  contains p s = false -> contains p (drop k s) = false.
Proof.
  intros Hs. apply (contains_false_mono p (drop k s) (take k s) []).
  by rewrite app_nil_r, take_drop.
Qed.

(** A pass whose matches start at a character other than a newline, and
    whose replacement text holds no newline, leaves every run of newlines
    as long as it was. *)
Lemma re_sub_keeps_runs r repl (s : str) :
  (forall t, re_match r t <> None -> run_length (N.eqb LF) t = 0) ->
  repl <> [] -> Forall (fun c => c <> LF) repl ->
  run_length (N.eqb LF) (re_sub r repl s) = run_length (N.eqb LF) s
  /\ (contains [LF; LF; LF] s = false ->
      contains [LF; LF; LF] (re_sub r repl s) = false).
Proof.
  intros Hr Hne Hrepl.
  assert (forall t, run_length (N.eqb LF) (repl ++ t) = 0) as Hrl0.
  { intros t. destruct Hrepl as [|c x Hc _]; [done|]. cbn [app].
    rewrite run_length_cons. by destruct (N.eqb_spec LF c). }
  remember (length s) as len eqn:Hlen. revert s Hlen.
  induction len as [len IH] using lt_wf_ind. intros s ->.
  rewrite re_sub_unfold.
  destruct (re_match r s) as [[|n]|] eqn:Hm.
  - assert (run_length (N.eqb LF) s = 0) as Hs0 by (apply Hr; congruence).
    rewrite Hrl0, Hs0. split; [done|]. rewrite no_triple_app by done.
    destruct s as [|c s]; [done|].
    destruct (IH (length s)) with (s := s) as [IH1 IH2]; [simpl; lia|done|].
    rewrite !no_triple_cons, !run_length_cons, IH1.
    intros [H1 H2]%orb_false_iff. by rewrite H1, IH2.
  - assert (run_length (N.eqb LF) s = 0) as Hs0 by (apply Hr; congruence).
    rewrite Hrl0, Hs0. split; [done|]. rewrite no_triple_app by done.
    apply re_match_le in Hm.
    destruct (IH (length (drop (S n) s))) with (s := drop (S n) s) as [IH1 IH2];
      [rewrite length_drop; lia|done|].
    intros Hs. by apply IH2, contains_drop_false.
  - destruct s as [|c s]; [done|].
    destruct (IH (length s)) with (s := s) as [IH1 IH2]; [simpl; lia|done|].
    rewrite !no_triple_cons, !run_length_cons, IH1. split; [done|].
    intros [H1 H2]%orb_false_iff. by rewrite H1, IH2.
Qed.

(** A header pattern matches only where its opening tag starts. *)
Lemma header_match_fits open title (t : str) :
  re_match (FinalPolish.header open title) t <> None ->
  fits (map pat_ok open) t = true.
Proof.
  unfold re_match, FinalPolish.header. cbn [run]. rewrite run_chars.
  by destruct (fits (map pat_ok open) t).
Qed.

Lemma replace_headers_keeps_runs (rows : list (list pat_char * list pat_char * str)) s :
  forallb (fun row => match row.1.1 with
                      | x :: _ => negb (pat_ok x LF)
                      | [] => false
                      end
                      && match row.2 with [] => false | _ :: _ => true end
                      && forallb (fun c => negb (c =? LF)%N) row.2) rows = true ->
  contains [LF; LF; LF] s = false ->
  contains [LF; LF; LF]
    (foldl (fun content pr => re_sub pr.1 pr.2 content) s
       (map (fun row => (FinalPolish.header row.1.1 row.1.2, row.2)) rows)) = false.
Proof.
  revert s. induction rows as [|row rows IH]; intros s Hrows Hs; [done|].
  cbn [forallb] in Hrows.
  apply andb_true_iff in Hrows as [[[Hopen Hne]%andb_true_iff Hrepl]%andb_true_iff Hrows].
  cbn [map foldl fst snd]. apply IH; [done|].
  apply re_sub_keeps_runs; [| | |done].
  - intros t Ht%header_match_fits.
    destruct row.1.1 as [|x open]; [done|].
    destruct t as [|c t]; [done|]. cbn [map fits] in Ht.
    apply andb_true_iff in Ht as [Hc _]. rewrite run_length_cons.
    destruct (N.eqb_spec LF c) as [<-|_]; [|done].
    by rewrite Hc in Hopen.
  - by destruct row.2.
  - apply forallb_Forall in Hrepl. eapply Forall_impl; [exact Hrepl|].
    intros c Hc%negb_true_iff. by apply N.eqb_neq.
Qed.

Lemma chr_i_less_than c : chr_i 60 c = true -> c = 60%N.
Proof.
  unfold chr_i. change (lower 60) with 60%N.
  change (60 =? 105)%N with false. change (60 =? 115)%N with false.
  cbn [andb]. rewrite !orb_false_r. intros Hc%N.eqb_eq. revert Hc. unfold lower.
  destruct (N.leb_spec 65 c); destruct (N.leb_spec c 90); cbn [andb]; try lia;
    destruct (N.eqb_spec c 0x130); try lia; destruct (N.eqb_spec c 0x212A); lia.
Qed.

Lemma chr_i_letter_h c : chr_i 104 c = true -> c = 104%N \/ c = 72%N.
Proof.
  unfold chr_i. change (lower 104) with 104%N.
  change (104 =? 105)%N with false. change (104 =? 115)%N with false.
  cbn [andb]. rewrite !orb_false_r. intros Hc%N.eqb_eq. revert Hc. unfold lower.
  destruct (N.leb_spec 65 c); destruct (N.leb_spec c 90); cbn [andb]; try lia;
    destruct (N.eqb_spec c 0x130); try lia; destruct (N.eqb_spec c 0x212A); lia.
Qed.

(** The header patterns all begin with [<h]; under [re.IGNORECASE] that
    is [<h] or [<H] in the text. *)
Lemma header_needs_tag open title (t : str) :
  startswith (str_lit "<h") t = false -> startswith (str_lit "<H") t = false ->
  re_match (FinalPolish.header (PLit 60 :: PLit 104 :: open) title) t = None.
Proof.
  intros Hl Hu.
  destruct (re_match _ t) eqn:Hm; [|done].
  assert (fits (map pat_ok (PLit 60 :: PLit 104 :: open)) t = true) as Hf.
  { apply (header_match_fits _ title). congruence. }
  destruct t as [|c1 [|c2 t]]; [done| |].
  - cbn [map fits] in Hf. by rewrite andb_false_r in Hf.
  - cbn [map fits pat_ok] in Hf.
    apply andb_true_iff in Hf as [->%chr_i_less_than [Hc2 _]%andb_true_iff].
    apply chr_i_letter_h in Hc2 as [-> | ->]; done.
Qed.

Lemma replace_headers_no_tag (rows : list (list pat_char * list pat_char * str)) (s : str) :
  forallb (fun row => match row.1.1 with
                      | PLit a :: PLit b :: _ => (a =? 60)%N && (b =? 104)%N
                      | _ => false
                      end) rows = true ->
  contains (str_lit "<h") s = false -> contains (str_lit "<H") s = false ->
  foldl (fun content pr => re_sub pr.1 pr.2 content) s
    (map (fun row => (FinalPolish.header row.1.1 row.1.2, row.2)) rows) = s.
Proof.
  intros Hrows Hl Hu. induction rows as [|row rows IH]; [done|].
  cbn [forallb] in Hrows. apply andb_true_iff in Hrows as [Hrow Hrows].
  cbn [map foldl fst snd]. rewrite re_sub_no_match; [by apply IH|].
  intros k. destruct row.1.1 as [|[a|] [|[b|] open]]; try done.
  apply andb_true_iff in Hrow as [->%N.eqb_eq ->%N.eqb_eq].
  apply header_needs_tag.
  - apply (contains_drop_false _ _ k) in Hl.
    destruct (drop k s); [done|]. by apply contains_cons_false in Hl as [? _].
  - apply (contains_drop_false _ _ k) in Hu.
    destruct (drop k s); [done|]. by apply contains_cons_false in Hu as [? _].
Qed.

Lemma normalize_lines_clean (s : str) :
  contains [CR; LF] s = false -> contains [LF; LF; LF] s = false ->
  FinalPolish.normalize_lines s = s.
Proof.
  intros Hcr Hl. unfold FinalPolish.normalize_lines. cbv zeta.
  rewrite replace_absent by done. apply re_sub_no_match. intros k.
  rewrite re_match_blank_lines.
  destruct (3 <=? run_length (N.eqb LF) (drop k s))%nat eqn:H3; [|done].
  rewrite <- (startswith_newlines 3) in H3.
  apply (contains_drop_false _ _ k) in Hl.
  destruct (drop k s) as [|c t]; [done|].
  apply contains_cons_false in Hl as [Hl _]. cbn [repeat] in H3. congruence.
Qed.

Lemma filter_newline_none (x : str) :
  Forall (fun c => c <> LF) x -> List.filter (N.eqb LF) x = [].
Proof.
  induction 1 as [|c x Hc _ IH]; [done|]. cbn [List.filter].
  by destruct (N.eqb_spec LF c).
Qed.

(** A pass whose matches and whose replacement text hold no newline
    leaves the newlines of the text where they are. *)
Lemma re_sub_keeps_newlines r repl (s : str) :
  (forall t n, re_match r t = Some n -> Forall (fun c => c <> LF) (take n t)) ->
  Forall (fun c => c <> LF) repl ->
  List.filter (N.eqb LF) (re_sub r repl s) = List.filter (N.eqb LF) s.
Proof.
  intros Hr Hrepl.
  remember (length s) as len eqn:Hlen. revert s Hlen.
  induction len as [len IH] using lt_wf_ind. intros s ->.
  rewrite re_sub_unfold.
  destruct (re_match r s) as [[|n]|] eqn:Hm.
  - rewrite List.filter_app, filter_newline_none by done.
    destruct s as [|c s]; [done|]. cbn [app List.filter].
    by rewrite (IH (length s)) by (simpl; lia || done).
  - rewrite List.filter_app, filter_newline_none by done. cbn [app].
    pose proof (re_match_le _ _ _ Hm).
    rewrite (IH (length (drop (S n) s))) by (rewrite ?length_drop; lia || done).
    rewrite <- (take_drop (S n) s) at 2.
    by rewrite List.filter_app, (filter_newline_none (take (S n) s)) by by apply Hr.
  - destruct s as [|c s]; [done|]. cbn [List.filter].
    by rewrite (IH (length s)) by (simpl; lia || done).
Qed.

(** ** More on the directories *)

Lemma makedirs_rev_step x y rhead w :
  makedirs_rev (x :: y :: rhead) w =
  if path_exists (files w) (rev (y :: rhead))
  then mkdir_exist_ok (rev (x :: y :: rhead)) w
  else match swallow_file_exists (makedirs_rev (y :: rhead)) w with
       | (Ok _, w1) => mkdir_exist_ok (rev (x :: y :: rhead)) w1
       | (Raise e, w1) => (Raise e, w1)
       end.
Proof.
  change (makedirs_rev (x :: y :: rhead) w) with
    ((get_files ≫= (fun fs =>
        (if path_exists fs (rev (y :: rhead)) then mret tt
         else swallow_file_exists (makedirs_rev (y :: rhead)))
        ≫= (fun _ => mkdir_exist_ok (rev (x :: y :: rhead))))) w).
  erewrite bind_ok; [|reflexivity]. cbn [files].
  destruct (path_exists (files w) (rev (y :: rhead))).
  - by erewrite bind_ok.
  - unfold mbind, M_bind.
    by destruct (swallow_file_exists (makedirs_rev (y :: rhead)) w) as [[[]|e] w1].
Qed.

Lemma mkdir_exist_ok_result p w :
  p <> [] ->
  mkdir_exist_ok p w =
  match files w !! p with
  | Some Dir => (Ok tt, w)
  | Some (File _) => (Raise FileExistsError, w)
  | None =>
      if isdir (files w) (dirname p)
      then (Ok tt, World (<[p := Dir]> (files w)) (stdout w))
      else if path_exists (files w) (dirname p) then (Raise NotADirectoryError, w)
           else (Raise FileNotFoundError, w)
  end.
Proof.
  intros Hp. unfold mkdir_exist_ok. rewrite mkdir_spec by done.
  destruct (files w !! p) as [[|data]|] eqn:Hl.
  - by rewrite isdir_lookup, Hl.
  - by rewrite isdir_lookup, Hl.
  - destruct (isdir (files w) (dirname p)); [done|].
    destruct (path_exists (files w) (dirname p)); by rewrite isdir_lookup, Hl.
Qed.

(** The script, once the directories have been seen to. *)
Lemma page_main_after_makedirs w r1 w1 :
  makedirs_rev (rev (dirname CreateVrPage.path)) w = (r1, w1) ->
  stdout w1 = stdout w ->
  (r1 = Ok tt -> isdir (files w1) (dirname CreateVrPage.path) = true) ->
  CreateVrPage.main w =
  match r1 with
  | Raise e => (Raise e, w1)
  | Ok _ =>
      match files w1 !! CreateVrPage.path with
      | Some Dir => (Raise IsADirectoryError, w1)
      | _ =>
          (Ok tt,
           World (<[CreateVrPage.path := File CreateVrPage.html_file]> (files w1))
                 (stdout w ++ ["Created C:\Users\Redacted\Documents\latticeveil.github.io\vr\index.html"%string]))
      end
  end.
Proof.
  intros Hmk Hout1 Hdir1.
  unfold CreateVrPage.main, makedirs. destruct r1 as [[]|e].
  - erewrite bind_ok; [|exact Hmk].
    specialize (Hdir1 eq_refl).
    unfold write_text.
    destruct (files w1 !! CreateVrPage.path) as [[|old]|] eqn:Hp.
    + erewrite bind_raise; [done|].
      erewrite bind_raise; [done|by rewrite open_truncate_spec, Hp].
    + erewrite bind_ok with (x := tt)
        (w' := World (<[CreateVrPage.path := File CreateVrPage.html_file]> (files w1))
                     (stdout w1)).
      * rewrite <- Hout1. done.
      * erewrite bind_ok; [|by rewrite open_truncate_spec, Hp].
        rewrite html_file_encoded. unfold set_node. cbn [files stdout].
        by rewrite insert_insert_eq.
    + erewrite bind_ok with (x := tt)
        (w' := World (<[CreateVrPage.path := File CreateVrPage.html_file]> (files w1))
                     (stdout w1)).
      * rewrite <- Hout1. done.
      * erewrite bind_ok; [|by rewrite open_truncate_spec, Hp, Hdir1].
        rewrite html_file_encoded. unfold set_node. cbn [files stdout].
        by rewrite insert_insert_eq.
  - erewrite bind_raise; [done|exact Hmk].
Qed.

(** After a successful [makedirs] of a directory that was missing, its
    parent is a directory. *)
Lemma makedirs_rev_made x y rhead w w' :
  makedirs_rev (x :: y :: rhead) w = (Ok tt, w') ->
  files w !! rev (x :: y :: rhead) = None ->
  isdir (files w') (rev (y :: rhead)) = true.
Proof.
  intros Hmk Hnone.
  assert (rev (x :: y :: rhead) <> []) as Hne by (simpl; by destruct (rev rhead ++ [y])).
  assert (rev (y :: rhead) <> []) as Hne' by (simpl; by destruct (rev rhead)).
  assert (rev (y :: rhead) <> rev (x :: y :: rhead)) as Hdiff.
  { intros Heq%(f_equal length). simpl in Heq. rewrite !length_app in Heq. simpl in Heq. lia. }
  assert (~ rev (x :: y :: rhead) `prefix_of` rev (y :: rhead)) as Hnp.
  { intros [k Hk]. apply (f_equal length) in Hk. simpl in Hk.
    rewrite !length_app in Hk. simpl in Hk. lia. }
  assert (forall w1, files w1 !! rev (x :: y :: rhead) = None ->
            mkdir_exist_ok (rev (x :: y :: rhead)) w1 = (Ok tt, w') ->
            isdir (files w') (rev (y :: rhead)) = true) as Hlast.
  { intros w1 Hn1. rewrite mkdir_exist_ok_result, Hn1, dirname_rev_cons by done.
    destruct (isdir (files w1) (rev (y :: rhead))) eqn:Hd.
    - intros [= <-]. cbn [files]. rewrite isdir_lookup in * by done.
      by rewrite lookup_insert_ne.
    - by destruct (path_exists _ _). }
  rewrite makedirs_rev_step in Hmk.
  destruct (path_exists (files w) (rev (y :: rhead))); [by apply (Hlast w)|].
  destruct (makedirs_rev_spec (y :: rhead) w) as (r & w1 & Hm & _ & Hg & _ & _).
  destruct (swallow_file_exists_spec _ _ _ _ Hm) as (r' & Hsw & _ & _).
  rewrite Hsw in Hmk. destruct r' as [[]|e]; [|done].
  apply (Hlast w1); [|done].
  destruct (Hg (rev (x :: y :: rhead))) as [->|(Hq & _ & _)]; done.
Qed.

(** With the directory there and its parent too, [makedirs] does
    nothing. *)
Lemma makedirs_rev_present x y rhead w :
  files w !! rev (x :: y :: rhead) = Some Dir ->
  files w !! rev (y :: rhead) <> None ->
  makedirs_rev (x :: y :: rhead) w = (Ok tt, w).
Proof.
  intros Hdir Hhead.
  assert (rev (x :: y :: rhead) <> []) as Hne by (simpl; by destruct (rev rhead ++ [y])).
  assert (rev (y :: rhead) <> []) as Hne' by (simpl; by destruct (rev rhead)).
  rewrite makedirs_rev_step, path_exists_lookup by done.
  destruct (files w !! rev (y :: rhead)); [|done].
  by rewrite mkdir_exist_ok_result, Hdir.
Qed.

Lemma page_main_succeeds w :
  (forall q data, q `prefix_of` dirname CreateVrPage.path ->
                  files w !! q <> Some (File data)) ->
  files w !! CreateVrPage.path <> Some Dir ->
  exists w', CreateVrPage.main w = (Ok tt, w').
Proof.
  intros Hfree Hnodir.
  destruct (makedirs_rev_spec (rev (dirname CreateVrPage.path)) w)
    as (r1 & w1 & Hmk & Hout1 & Hg1 & Hdir1 & Hsucc1).
  rewrite rev_involutive in Hg1, Hdir1, Hsucc1.
  rewrite (page_main_after_makedirs w r1 w1 Hmk Hout1 Hdir1), (Hsucc1 Hfree).
  destruct (Hg1 CreateVrPage.path) as [Heq|(Hq & _ & _)].
  - rewrite Heq. destruct (files w !! CreateVrPage.path) as [[|old]|]; eauto. done.
  - by apply page_path_not_parent in Hq.
Qed.

(** ** [Tools/update_website_vr.py]: further properties *)

(** X1 (the site injector never fails on a regular file and only
    inserts): when the target is a regular file, whatever its bytes, the
    run ends normally, and the bytes the file holds after the run contain
    the bytes it held before as a subsequence, in order: nothing that was
    in the document is removed or changed, and the file does not get
    shorter. *)
Theorem site_run_only_inserts w data :
  files w !! UpdateWebsiteVr.path = Some (File data) ->
  exists out,
    UpdateWebsiteVr.main w
    = (Ok tt, World (<[UpdateWebsiteVr.path := File out]> (files w))
                    (stdout w ++ ["Updated index.html with VR button, detection, and devlog."%string]))
    /\ data `sublist_of` out
    /\ length data <= length out.
Proof.
  intros Hp. rewrite site_main_spec, Hp.
  exists (UpdateWebsiteVr.patch data). split; [done|].
  assert (data `sublist_of` UpdateWebsiteVr.patch data) as Hsub.
  { rewrite site_patch_apply_all. apply apply_all_sublist, site_anchors_nonempty. }
  split; [done|]. by apply sublist_length.
Qed.

Lemma site_run_only_inserts_witness :
  exists out,
    UpdateWebsiteVr.main
      (World {[UpdateWebsiteVr.path := File (bytes_lit "<body></body>")]} [])
    = (Ok tt, World (<[UpdateWebsiteVr.path := File out]>
                       {[UpdateWebsiteVr.path := File (bytes_lit "<body></body>")]})
                    ([] ++ ["Updated index.html with VR button, detection, and devlog."%string]))
    /\ bytes_lit "<body></body>" `sublist_of` out
    /\ length (bytes_lit "<body></body>") <= length out.
Proof.
  refine (site_run_only_inserts
            (World {[UpdateWebsiteVr.path := File (bytes_lit "<body></body>")]} [])
            (bytes_lit "<body></body>") _).
  cbn [files]. apply lookup_singleton_eq.
Defined.

(** X2 (which markers the site injector leaves): after the patch, the
    marker of an insertion is in the document exactly when the marker or
    the anchor of that insertion was in it before.  So one run settles
    every insertion whose anchor is there, and never marks as present a
    feature whose anchor and marker are both missing. *)
Theorem site_markers_after_patch data :
  Forall (fun i => contains (marker i) (UpdateWebsiteVr.patch data) = true
                   <-> contains (marker i) data = true \/ contains (anchor i) data = true)
         UpdateWebsiteVr.insertions.
Proof.
  rewrite site_patch_apply_all.
  pose proof site_anchors_nonempty as Hne.
  unfold UpdateWebsiteVr.insertions in *.
  repeat apply Forall_cons_2; [| | | |apply Forall_nil_2];
    (apply apply_all_marker_iff;
     [exact Hne|vm_compute; reflexivity|set_solver|check_each]).
Qed.

Lemma site_markers_after_patch_witness :
  contains (marker UpdateWebsiteVr.button_insertion)
    (UpdateWebsiteVr.patch (bytes_lit "<html><body></body></html>")) = true.
Proof.
  apply (proj1 (Forall_forall _ _)
           (site_markers_after_patch (bytes_lit "<html><body></body></html>"))
           UpdateWebsiteVr.button_insertion).
  - unfold UpdateWebsiteVr.insertions. right. left.
  - right. vm_compute. reflexivity.
Defined.

(** X3 (the confirmation is printed whether or not anything was
    inserted): when, for each of the four insertions, the marker is
    already in the file or the anchor is not, the run leaves the file
    system exactly as it was and still prints the confirmation. *)
Theorem site_run_without_change w data :
  files w !! UpdateWebsiteVr.path = Some (File data) ->
  Forall (fun i => contains (marker i) data = true \/ contains (anchor i) data = false)
         UpdateWebsiteVr.insertions ->
  UpdateWebsiteVr.main w
  = (Ok tt, World (files w)
                  (stdout w ++ ["Updated index.html with VR button, detection, and devlog."%string])).
Proof.
  intros Hp Hs. rewrite site_main_spec, Hp.
  rewrite site_patch_apply_all, apply_all_settled.
  - by rewrite insert_id.
  - eapply Forall_impl; [exact Hs|]. intros i [Hi|Hi]; unfold settled; rewrite Hi; [done|].
    by rewrite orb_true_r.
Qed.

Lemma site_run_without_change_witness :
  UpdateWebsiteVr.main (World {[UpdateWebsiteVr.path := File (bytes_lit "<p>plain</p>")]} [])
  = (Ok tt, World {[UpdateWebsiteVr.path := File (bytes_lit "<p>plain</p>")]}
                  ([] ++ ["Updated index.html with VR button, detection, and devlog."%string])).
Proof.
  refine (site_run_without_change
            (World {[UpdateWebsiteVr.path := File (bytes_lit "<p>plain</p>")]} [])
            (bytes_lit "<p>plain</p>") _ _).
  - cbn [files]. apply lookup_singleton_eq.
  - unfold UpdateWebsiteVr.insertions.
    repeat apply Forall_cons_2; [| | | |apply Forall_nil_2]; right; vm_compute; reflexivity.
Defined.

(** ** The two scripts that patch the main page in place *)

(** X11 (the site injector and the scrubber touch nothing but their
    target): after a run of the site injector or of the scrubber, whether
    it succeeded or failed, every path other than the script's own target
    holds what it held before. *)
Theorem patchers_touch_only_their_target w q :
  (q <> UpdateWebsiteVr.path -> files (UpdateWebsiteVr.main w).2 !! q = files w !! q)
  /\ (q <> FinalPolish.path -> files (FinalPolish.main w).2 !! q = files w !! q).
Proof.
  split; intros Hq.
  - rewrite site_main_spec.
    destruct (files w !! UpdateWebsiteVr.path) as [[|data]|]; cbn [snd files]; [done| |done].
    by rewrite lookup_insert_ne.
  - rewrite final_polish_main_spec.
    destruct (files w !! FinalPolish.path) as [[|data]|]; cbn [snd files]; [done| |done].
    destruct (utf8_encode _); cbn [snd files]; by rewrite lookup_insert_ne.
Qed.

Lemma patchers_touch_only_their_target_witness :
  files (UpdateWebsiteVr.main
           (World {[UpdateWebsiteVr.path := File []; ["C:"; "notes.txt"]%string := File [x41]]} [])).2
    !! (["C:"; "notes.txt"]%string)
  = files (World {[UpdateWebsiteVr.path := File []; ["C:"; "notes.txt"]%string := File [x41]]} [])
      !! (["C:"; "notes.txt"]%string).
Proof.
  apply (proj1 (patchers_touch_only_their_target
                  (World {[UpdateWebsiteVr.path := File [];
                           ["C:"; "notes.txt"]%string := File [x41]]} [])
                  ["C:"; "notes.txt"]%string)).
  done.
Defined.

(** ** [Tools/final_polish.py]: further properties *)

(** X12 (what the first step of the scrubber keeps): replacing the
    carriage-return line-feed pairs and collapsing the blank lines removes
    carriage returns and line feeds only; the characters that are neither
    come out in the same order, none lost and none added, and the text
    does not get longer. *)
Theorem normalize_lines_keeps_visible content :
  List.filter (fun c => negb (c =? CR)%N && negb (c =? LF)%N)
    (FinalPolish.normalize_lines content)
  = List.filter (fun c => negb (c =? CR)%N && negb (c =? LF)%N) content
  /\ length (FinalPolish.normalize_lines content) <= length content.
Proof.
  unfold FinalPolish.normalize_lines. cbv zeta.
  destruct (collapse_visible (replace [CR; LF] [LF] content)) as [H1 H2].
  destruct (replaced_crlf_visible content (replace [CR; LF] [LF] content)) as [H3 H4].
  { by apply replace_replaced. }
  split; [congruence|lia].
Qed.

(** X13 (no two blank lines in a row in what the scrubber writes): the
    text the scrubber writes back never holds three line feeds in a row,
    whatever the bytes of the file were, and neither do the bytes written:
    the blank-line step leaves none, and no later step joins two runs of
    line feeds or adds a line feed. *)
Theorem scrubber_leaves_no_triple_newline data :
  contains [LF; LF; LF] (FinalPolish.polish data) = false
  /\ exists out,
       utf8_encode (FinalPolish.polish data) = Some out
       /\ contains [x0a; x0a; x0a] out = false.
Proof.
  assert (contains [LF; LF; LF] (FinalPolish.polish data) = false) as Htext.
  { rewrite polish_is_headers.
    unfold FinalPolish.replace_headers, FinalPolish.header_replacements.
    apply replace_headers_keeps_runs; [vm_compute; reflexivity|].
    unfold FinalPolish.normalize_lines. apply collapse_runs. }
  split; [exact Htext|].
  destruct (polish_encodes data) as [out Hout]. exists out. split; [exact Hout|].
  change [x0a; x0a; x0a] with (map byte_of_N [LF; LF; LF]).
  rewrite (utf8_encode_contains_ascii [LF; LF; LF] (FinalPolish.polish data) out);
    [exact Htext|done| |exact Hout].
  by repeat constructor.
Qed.

(** X14 (the header pass keeps the lines): a match of a header pattern
    never reaches over a line feed and no replacement text holds one, so
    the header pass leaves every line feed of the text in place: the text
    has as many lines after it as before, and the scrubber as a whole
    writes the line feeds that its first step left. *)
Theorem header_pass_keeps_line_feeds :
  (forall content,
     List.filter (N.eqb LF) (FinalPolish.replace_headers content)
     = List.filter (N.eqb LF) content)
  /\ (forall data,
        List.filter (N.eqb LF) (FinalPolish.polish data)
        = List.filter (N.eqb LF) (FinalPolish.normalize_lines (latin1_decode data))).
Proof.
  assert (forall content,
            List.filter (N.eqb LF) (FinalPolish.replace_headers content)
            = List.filter (N.eqb LF) content) as Hpass.
  { intros content. unfold FinalPolish.replace_headers, FinalPolish.header_replacements.
    pose proof header_rows_on_one_line as Hline.
    assert (Forall (fun row : list pat_char * list pat_char * str =>
                      Forall (fun c => c <> LF) row.2) FinalPolish.header_rows) as Hrepl.
    { pose proof (forallb_forallb_Forall (fun c => negb (c =? LF)%N) snd
                    FinalPolish.header_rows eq_refl) as H.
      eapply Forall_impl; [exact H|]. intros row Hrow. cbv beta in Hrow.
      eapply Forall_impl; [exact Hrow|]. intros c Hc%negb_true_iff. by apply N.eqb_neq. }
    revert content Hline Hrepl. generalize FinalPolish.header_rows.
    intros rows. induction rows as [|row rows IH]; intros content Hline Hrepl; [done|].
    apply Forall_cons in Hline as [Hrow Hline]. apply Forall_cons in Hrepl as [Hr Hrepl].
    cbn [map foldl fst snd]. rewrite IH by done.
    apply re_sub_keeps_newlines; [|done].
    intros t n (m & rest & -> & -> & Hm)%header_match_inv.
    rewrite take_app_length.
    destruct (header_here_one_line row m Hrow Hm) as [Hlf _].
    apply Forall_forall. intros c Hc ->. by apply Hlf, list_elem_of_In. }
  split; [exact Hpass|]. intros data. by rewrite polish_is_headers, Hpass.
Qed.

(** X15 (the scrubber on a document with nothing to fix): on a file
    without a carriage-return line-feed pair, without three line feeds in
    a row and without [<h] or [<H], the text is written back as it was
    read, each Latin-1 character encoded as UTF-8: a byte below 0x80 comes
    back as it is and every other byte as two bytes.  A pure ASCII file is
    written back byte for byte; any other such file gets longer by one
    byte for each byte above 0x7F, at every run. *)
Theorem scrubber_recodes_plain_documents data :
  contains [CR; LF] (latin1_decode data) = false ->
  contains [LF; LF; LF] (latin1_decode data) = false ->
  contains (str_lit "<h") (latin1_decode data) = false ->
  contains (str_lit "<H") (latin1_decode data) = false ->
  FinalPolish.polish data = latin1_decode data
  /\ exists out,
       utf8_encode (FinalPolish.polish data) = Some out
       /\ length out
          = length data + length (List.filter (fun b => (0x80 <=? Byte.to_N b)%N) data)
       /\ (Forall (fun b => (Byte.to_N b < 0x80)%N) data -> out = data).
Proof.
  intros Hcr Hlf Hl Hu.
  assert (FinalPolish.polish data = latin1_decode data) as Hp.
  { rewrite polish_is_headers, normalize_lines_clean by done.
    unfold FinalPolish.replace_headers, FinalPolish.header_replacements.
    apply replace_headers_no_tag; [vm_compute; reflexivity|done|done]. }
  split; [done|]. rewrite Hp. apply latin1_utf8.
Qed.

Lemma scrubber_recodes_plain_documents_witness :
  FinalPolish.polish [x63; x61; x66; xe9] = latin1_decode [x63; x61; x66; xe9]
  /\ exists out,
       utf8_encode (FinalPolish.polish [x63; x61; x66; xe9]) = Some out
       /\ length out
          = length [x63; x61; x66; xe9]
            + length (List.filter (fun b => (0x80 <=? Byte.to_N b)%N) [x63; x61; x66; xe9])
       /\ (Forall (fun b => (Byte.to_N b < 0x80)%N) [x63; x61; x66; xe9]
           -> out = [x63; x61; x66; xe9]).
Proof.
  apply (scrubber_recodes_plain_documents [x63; x61; x66; xe9]);
    vm_compute; reflexivity.
Defined.

(** X16 (the scrubber writes valid UTF-8 with no four-byte character):
    with the target a regular file, the run ends normally, the bytes
    written decode as UTF-8 to the text the scrubber built, and none of
    them is 0xF0 or above.  An emoji that was in the file, such as the one
    in the devlog entry the site injector adds to the same file, is
    therefore never written back as it was: the encoded devlog entry is
    not in the output of the scrubber, whatever the input. *)
Theorem scrubber_output_has_no_four_byte_character w data :
  files w !! FinalPolish.path = Some (File data) ->
  exists out w',
    FinalPolish.main w = (Ok tt, w')
    /\ files w' !! FinalPolish.path = Some (File out)
    /\ utf8_decode out = Some (FinalPolish.polish data)
    /\ Forall (fun b => (Byte.to_N b < 0xF0)%N) out
    /\ contains UpdateWebsiteVr.new_log_encoded out = false.
Proof.
  intros Hp. destruct (polish_encodes data) as [out Hout].
  exists out. eexists. split; [by rewrite final_polish_main_spec, Hp, Hout|].
  cbn [files]. split; [apply lookup_insert_eq|].
  split; [by apply utf8_round_trip|].
  assert (Forall (fun b => (Byte.to_N b < 0xF0)%N) out) as Hbmp.
  { apply (utf8_encode_bmp _ _ Hout).
    pose proof (polish_Forall (fun c => (c <? 0x10000)%N) data) as Hf.
    eapply Forall_impl; [apply Hf|].
    - intros c Hc. apply N.ltb_lt. lia.
    - vm_compute. reflexivity.
    - vm_compute. reflexivity.
    - intros c Hc. by apply N.ltb_lt. }
  split; [done|].
  apply (contains_absent_char xf0).
  - assert (existsb (fun b => bool_decide (b = xf0)) UpdateWebsiteVr.new_log_encoded = true)
      as Hx by (vm_compute; reflexivity).
    apply existsb_exists in Hx as (b & Hin & Hb). apply bool_decide_eq_true in Hb.
    by subst.
  - eapply Forall_impl; [exact Hbmp|]. intros b Hb ->. vm_compute in Hb. done.
Qed.

Lemma scrubber_output_has_no_four_byte_character_witness :
  exists out w',
    FinalPolish.main (World {[FinalPolish.path := File [xf0; x9f; xa5; xbd]]} []) = (Ok tt, w')
    /\ files w' !! FinalPolish.path = Some (File out)
    /\ utf8_decode out = Some (FinalPolish.polish [xf0; x9f; xa5; xbd])
    /\ Forall (fun b => (Byte.to_N b < 0xF0)%N) out
    /\ contains UpdateWebsiteVr.new_log_encoded out = false.
Proof.
  apply (scrubber_output_has_no_four_byte_character
           (World {[FinalPolish.path := File [xf0; x9f; xa5; xbd]]} [])).
  cbn [files]. apply lookup_singleton_eq.
Defined.

(** X17 (what a header pattern matches): a header pattern matches at the
    start of a text exactly when the text starts with an opening tag as
    the pattern spells it, without regard to case, then any characters
    other than a line feed, then the title with its closing tag. *)
Theorem header_pattern_matches_exactly open title (s : str) :
  re_match (FinalPolish.header open title) s <> None
  <-> exists m rest, s = m ++ rest /\ FinalPolish.header_here open title m.
Proof.
  split.
  - destruct (re_match _ s) as [n|] eqn:Hm; [|done]. intros _.
    apply header_match_inv in Hm as (m & rest & -> & _ & Hm). by exists m, rest.
  - intros (m & rest & -> & Hm). by apply header_matches.
Qed.

Lemma header_pattern_matches_exactly_witness :
  re_match (FinalPolish.header (text_i "<h3>") (text_i "Quick Summary</h3>"))
    (str_lit "<H3>?? quick SUMMARY</h3> and more") <> None.
Proof.
  apply (proj2 (header_pattern_matches_exactly (text_i "<h3>") (text_i "Quick Summary</h3>")
                  (str_lit "<H3>?? quick SUMMARY</h3> and more"))).
  exists (str_lit "<H3>?? quick SUMMARY</h3>"), (str_lit " and more").
  split; [reflexivity|].
  exists (str_lit "<H3>"), (str_lit "?? "), (str_lit "quick SUMMARY</h3>").
  repeat split; vm_compute; reflexivity.
Defined.

(** ** [Tools/create_vr_page.py]: further properties *)

(** X18 (what the page generator leaves alone): after a run, whether it
    succeeded or failed, every path other than the target holds what it
    held before, or is a leading part of the parent directory that was
    missing and is now a directory.  Nothing is deleted and no existing
    entry other than the target is changed. *)
Theorem page_run_frame w q :
  q <> CreateVrPage.path ->
  files (CreateVrPage.main w).2 !! q = files w !! q
  \/ (q `prefix_of` dirname CreateVrPage.path
      /\ files w !! q = None
      /\ files (CreateVrPage.main w).2 !! q = Some Dir).
Proof.
  intros Hq.
  destruct (makedirs_rev_spec (rev (dirname CreateVrPage.path)) w)
    as (r1 & w1 & Hmk & Hout1 & Hg1 & Hdir1 & _).
  rewrite rev_involutive in Hg1, Hdir1.
  rewrite (page_main_after_makedirs w r1 w1 Hmk Hout1 Hdir1).
  assert (files w1 !! q = files w !! q
          \/ (q `prefix_of` dirname CreateVrPage.path
              /\ files w !! q = None /\ files w1 !! q = Some Dir)) as Hw1 by apply Hg1.
  destruct r1 as [[]|e]; [|done].
  destruct (files w1 !! CreateVrPage.path) as [[|old]|]; cbn [snd files];
    rewrite ?lookup_insert_ne by done; done.
Qed.

Lemma page_run_frame_witness :
  files (CreateVrPage.main (World {[ ["C:"; "notes.txt"]%string := File [x41] ]} [])).2
    !! (["C:"; "notes.txt"]%string)
  = files (World {[ ["C:"; "notes.txt"]%string := File [x41] ]} [])
      !! (["C:"; "notes.txt"]%string)
  \/ (["C:"; "notes.txt"]%string `prefix_of` dirname CreateVrPage.path
      /\ files (World {[ ["C:"; "notes.txt"]%string := File [x41] ]} [])
           !! (["C:"; "notes.txt"]%string) = None
      /\ files (CreateVrPage.main (World {[ ["C:"; "notes.txt"]%string := File [x41] ]} [])).2
           !! (["C:"; "notes.txt"]%string) = Some Dir).
Proof.
  apply (page_run_frame (World {[ ["C:"; "notes.txt"]%string := File [x41] ]} [])
           ["C:"; "notes.txt"]%string).
  done.
Defined.

(** X19 (the name of the parent directory taken by a regular file): when
    the parent of the target exists as a regular file, inside an existing
    grandparent, [makedirs] raises [FileExistsError] although [exist_ok]
    is set, since the name is not a directory; nothing is created, written
    or printed. *)
Theorem page_run_parent_is_a_file w data :
  files w !! dirname CreateVrPage.path = Some (File data) ->
  files w !! dirname (dirname CreateVrPage.path) <> None ->
  CreateVrPage.main w = (Raise FileExistsError, w).
Proof.
  intros Hparent Hhead.
  unfold CreateVrPage.main, makedirs.
  erewrite bind_raise; [done|].
  change (rev (dirname CreateVrPage.path)) with
    ("vr" :: "latticeveil.github.io" :: ["Documents"; "Redacted"; "Users"; "C:"])%string.
  rewrite makedirs_rev_step.
  change (rev ("latticeveil.github.io" :: ["Documents"; "Redacted"; "Users"; "C:"])%string)
    with (dirname (dirname CreateVrPage.path)).
  change (rev ("vr" :: "latticeveil.github.io" :: ["Documents"; "Redacted"; "Users"; "C:"])%string)
    with (dirname CreateVrPage.path).
  rewrite path_exists_lookup by done.
  destruct (files w !! dirname (dirname CreateVrPage.path)); [|done].
  by rewrite mkdir_exist_ok_result, Hparent.
Qed.

Lemma page_run_parent_is_a_file_witness :
  CreateVrPage.main
    (World {[ dirname CreateVrPage.path := File [];
              dirname (dirname CreateVrPage.path) := Dir ]} [])
  = (Raise FileExistsError,
     World {[ dirname CreateVrPage.path := File [];
              dirname (dirname CreateVrPage.path) := Dir ]} []).
Proof.
  refine (page_run_parent_is_a_file
            (World {[ dirname CreateVrPage.path := File [];
                      dirname (dirname CreateVrPage.path) := Dir ]} []) [] _ _).
  - cbn [files]. by rewrite lookup_insert_eq.
  - cbn [files]. rewrite lookup_insert_ne by done. by rewrite lookup_singleton_eq.
Defined.

(** X20 (generating twice): in a file system where every entry lies in a
    directory, a second run of the page generator after a successful one
    succeeds as well and leaves the files exactly as the first run left
    them; only the confirmation is printed again. *)
Theorem page_run_twice w w1 :
  (forall p, files w !! p <> None -> isdir (files w) (dirname p) = true) ->
  CreateVrPage.main w = (Ok tt, w1) ->
  exists w2,
    CreateVrPage.main w1 = (Ok tt, w2)
    /\ files w2 = files w1
    /\ stdout w2
       = stdout w1 ++ ["Created C:\Users\Redacted\Documents\latticeveil.github.io\vr\index.html"%string].
Proof.
  intros Hwf Hrun.
  destruct (makedirs_rev_spec (rev (dirname CreateVrPage.path)) w)
    as (r1 & wa & Hmk & Hout1 & Hg1 & Hdir1 & _).
  rewrite rev_involutive in Hg1, Hdir1.
  rewrite (page_main_after_makedirs w r1 wa Hmk Hout1 Hdir1) in Hrun.
  destruct r1 as [[]|e]; [|done]. specialize (Hdir1 eq_refl).
  assert (w1 = World (<[CreateVrPage.path := File CreateVrPage.html_file]> (files wa))
                     (stdout w ++ ["Created C:\Users\Redacted\Documents\latticeveil.github.io\vr\index.html"%string]))
    as ->.
  { destruct (files wa !! CreateVrPage.path) as [[|old]|]; congruence. }
  clear Hrun.
  assert (dirname CreateVrPage.path <> CreateVrPage.path) as Hne1 by done.
  assert (dirname (dirname CreateVrPage.path) <> CreateVrPage.path) as Hne2 by done.
  rewrite isdir_lookup in Hdir1 by done.
  destruct (files wa !! dirname CreateVrPage.path) as [[|?]|] eqn:Hparent; try done.
  (* the grandparent is there after the first run *)
  assert (files wa !! dirname (dirname CreateVrPage.path) <> None) as Hhead.
  { destruct (files w !! dirname CreateVrPage.path) as [n|] eqn:Hp0.
    - assert (isdir (files w) (dirname (dirname CreateVrPage.path)) = true) as Hd.
      { apply Hwf. by rewrite Hp0. }
      rewrite isdir_lookup in Hd by done.
      destruct (Hg1 (dirname (dirname CreateVrPage.path))) as [->|(_ & _ & ->)]; [|done].
      by destruct (files w !! dirname (dirname CreateVrPage.path)).
    - pose proof (makedirs_rev_made "vr" "latticeveil.github.io"
                    ["Documents"; "Redacted"; "Users"; "C:"]%string w wa Hmk Hp0) as Hd.
      change (rev ("latticeveil.github.io" :: ["Documents"; "Redacted"; "Users"; "C:"])%string)
        with (dirname (dirname CreateVrPage.path)) in Hd.
      rewrite isdir_lookup in Hd by done.
      by destruct (files wa !! dirname (dirname CreateVrPage.path)). }
  set (wb := World (<[CreateVrPage.path := File CreateVrPage.html_file]> (files wa))
                   (stdout w ++ ["Created C:\Users\Redacted\Documents\latticeveil.github.io\vr\index.html"%string])).
  assert (makedirs_rev (rev (dirname CreateVrPage.path)) wb = (Ok tt, wb)) as Hmk2.
  { apply (makedirs_rev_present "vr" "latticeveil.github.io"
             ["Documents"; "Redacted"; "Users"; "C:"]%string wb).
    - change (rev ("vr" :: "latticeveil.github.io" :: ["Documents"; "Redacted"; "Users"; "C:"])%string)
        with (dirname CreateVrPage.path).
      unfold wb. cbn [files]. by rewrite lookup_insert_ne.
    - change (rev ("latticeveil.github.io" :: ["Documents"; "Redacted"; "Users"; "C:"])%string)
        with (dirname (dirname CreateVrPage.path)).
      unfold wb. cbn [files]. by rewrite lookup_insert_ne. }
  rewrite (page_main_after_makedirs wb (Ok tt) wb Hmk2 eq_refl).
  - unfold wb at 1. cbn [files]. rewrite lookup_insert_eq.
    eexists. split; [done|]. cbn [files stdout]. split; [|done].
    unfold wb. cbn [files]. by rewrite insert_insert_eq.
  - intros _. unfold wb. cbn [files]. rewrite isdir_lookup by done.
    by rewrite lookup_insert_ne, Hparent.
Qed.

Lemma page_run_twice_witness :
  exists w1 w2,
    CreateVrPage.main (World {[ ["C:"]%string := Dir ]} []) = (Ok tt, w1)
    /\ CreateVrPage.main w1 = (Ok tt, w2)
    /\ files w2 = files w1
    /\ stdout w2
       = stdout w1 ++ ["Created C:\Users\Redacted\Documents\latticeveil.github.io\vr\index.html"%string].
Proof.
  destruct (page_main_succeeds (World {[ ["C:"]%string := Dir ]} [])) as [w1 H1].
  - intros q data _. cbn [files]. by intros [_ ?]%lookup_singleton_Some.
  - cbn [files]. by rewrite lookup_singleton_ne.
  - exists w1.
    destruct (page_run_twice (World {[ ["C:"]%string := Dir ]} []) w1) as [w2 H2].
    + intros p. cbn [files]. destruct (decide (p = ["C:"]%string)) as [->|Hp]; [done|].
      by rewrite lookup_singleton_ne.
    + exact H1.
    + exists w2. split; [exact H1|exact H2].
Defined.
